(** * Action dispatch: the Move code emitted by the migration scripts,
      and the scripts' own text rewriting

    The repository's scripts rewrite Move sources.  Two things are embedded
    here:

    - the Move functions the scripts write into the contracts (the
      [do_*] dispatch functions and the [new_*] constructor, taken from the
      replacement templates of [contracts/fix_financial_actions.py],
      [contracts/complete_migration.py], [contracts/fix_action_security.py]
      and [contracts/fix_all_actions.py]), as functions of a transaction
      monad that keeps the state reached when an abort happens;
    - the Python rewriting itself ([str.find], [str.replace], slices, the
      [re] patterns the scripts use), as functions on strings. *)

From Stdlib Require Import ZArith List Bool Ascii String Lia.
Import ListNotations.

Local Open Scope Z_scope.

(** ** sui::bcs

    The peel functions of the Sui framework's [bcs] module, which the
    emitted Move code calls.  [bcs::new] reverses the byte vector and every
    peel pops from its back: the reader is modelled as the list of bytes not
    yet read, in reading order.  A [u8] is a [Z] in [0, 256).  [None] is an
    abort inside the module. *)
Module bcs.

Definition BCS := list Z.

Definition new (bytes : list Z) : BCS := bytes.

Definition into_remainder_bytes (reader : BCS) : list Z := reader.

Definition peel_u8 (reader : BCS) : option (Z * BCS) :=
  match reader with
  | [] => None
  | b :: rest => Some (b, rest)
  end.

Definition peel_bool (reader : BCS) : option (bool * BCS) :=
  match peel_u8 reader with
  | None => None
  | Some (value, rest) =>
      if value =? 0 then Some (false, rest)
      else if value =? 1 then Some (true, rest)
      else None
  end.

(** [while (i < 64) { value = value + (byte << i); i = i + 8 }], after
    [assert!(bytes.length() >= 8)]. *)
Fixpoint peel_le (n : nat) (i : Z) (value : Z) (reader : BCS) : option (Z * BCS) :=
  match n with
  | O => Some (value, reader)
  | S n' =>
      match reader with
      | [] => None
      | byte :: rest => peel_le n' (i + 8) (value + Z.shiftl byte i) rest
      end
  end.

Definition peel_u64 (reader : BCS) : option (Z * BCS) := peel_le 8 0 0 reader.

(** An address is 32 bytes, kept as the byte list. *)
Fixpoint peel_bytes (n : nat) (reader : BCS) : option (list Z * BCS) :=
  match n with
  | O => Some ([], reader)
  | S n' =>
      match peel_u8 reader with
      | None => None
      | Some (b, rest) =>
          match peel_bytes n' rest with
          | None => None
          | Some (bs, rest') => Some (b :: bs, rest')
          end
      end
  end.

Definition address_length : nat := 32.

Definition peel_address (reader : BCS) : option (list Z * BCS) :=
  peel_bytes address_length reader.

(** ULEB128 length: the loop asserts [len <= 4] on entry of each round, so
    at most five bytes are read. *)
Fixpoint peel_vec_length_loop (rounds : nat) (total shift : Z) (reader : BCS)
  : option (Z * BCS) :=
  match rounds with
  | O => None
  | S rounds' =>
      match reader with
      | [] => None
      | byte :: rest =>
          let total' := Z.lor total (Z.shiftl (Z.land byte 127) shift) in
          if Z.land byte 128 =? 0 then Some (total', rest)
          else peel_vec_length_loop rounds' total' (shift + 7) rest
      end
  end.

Definition peel_vec_length (reader : BCS) : option (Z * BCS) :=
  peel_vec_length_loop 5 0 0 reader.

Definition peel_vec_u8 (reader : BCS) : option (list Z * BCS) :=
  match peel_vec_length reader with
  | None => None
  | Some (len, rest) => peel_bytes (Z.to_nat len) rest
  end.

Fixpoint peel_vec_vec_u8_loop (n : nat) (reader : BCS) : option (list (list Z) * BCS) :=
  match n with
  | O => Some ([], reader)
  | S n' =>
      match peel_vec_u8 reader with
      | None => None
      | Some (v, rest) =>
          match peel_vec_vec_u8_loop n' rest with
          | None => None
          | Some (vs, rest') => Some (v :: vs, rest')
          end
      end
  end.

Definition peel_vec_vec_u8 (reader : BCS) : option (list (list Z) * BCS) :=
  match peel_vec_length reader with
  | None => None
  | Some (len, rest) => peel_vec_vec_u8_loop (Z.to_nat len) rest
  end.

(** Serialisation ([bcs::to_bytes]) of the field types the constructor
    uses. *)
Fixpoint uleb128 (rounds : nat) (n : Z) : list Z :=
  match rounds with
  | O => []
  | S rounds' =>
      if n <? 128 then [n]
      else Z.lor (Z.land n 127) 128 :: uleb128 rounds' (Z.shiftr n 7)
  end.

Fixpoint le_bytes (n : nat) (v : Z) : list Z :=
  match n with
  | O => []
  | S n' => v mod 256 :: le_bytes n' (v / 256)
  end.

Definition u8_to_bytes (v : Z) : list Z := [v].
Definition bool_to_bytes (b : bool) : list Z := [if b then 1 else 0].
Definition u64_to_bytes (v : Z) : list Z := le_bytes 8 v.
Definition vec_u8_to_bytes (v : list Z) : list Z :=
  uleb128 5 (Z.of_nat (List.length v)) ++ v.

End bcs.

(** ** std::string

    [string::utf8] aborts unless its argument is well-formed UTF-8. *)
Definition utf8_continuation (b : Z) : bool := (128 <=? b) && (b <=? 191).

Fixpoint internal_check_utf8 (bytes : list Z) : bool :=
  match bytes with
  | [] => true
  | b0 :: r0 =>
      if b0 <? 128 then internal_check_utf8 r0
      else if (194 <=? b0) && (b0 <=? 223) then
        match r0 with
        | b1 :: r1 => utf8_continuation b1 && internal_check_utf8 r1
        | _ => false
        end
      else if (224 <=? b0) && (b0 <=? 239) then
        match r0 with
        | b1 :: b2 :: r2 =>
            (if b0 =? 224 then (160 <=? b1) && (b1 <=? 191)
             else if b0 =? 237 then (128 <=? b1) && (b1 <=? 159)
             else utf8_continuation b1)
            && utf8_continuation b2 && internal_check_utf8 r2
        | _ => false
        end
      else if (240 <=? b0) && (b0 <=? 244) then
        match r0 with
        | b1 :: b2 :: b3 :: r3 =>
            (if b0 =? 240 then (144 <=? b1) && (b1 <=? 191)
             else if b0 =? 244 then (128 <=? b1) && (b1 <=? 143)
             else utf8_continuation b1)
            && utf8_continuation b2 && utf8_continuation b3
            && internal_check_utf8 r3
        | _ => false
        end
      else false
  end.

(** ** The objects a dispatch function works on *)

(** A type tag is the name of a Move type ([type_name::TypeName]). *)
Definition TypeName := string.

(** [intents::ActionSpec]: the tag, the schema version and the BCS bytes. *)
Record ActionSpec := mkActionSpec {
  action_spec_type : TypeName;
  action_spec_version : Z;
  action_spec_data : list Z
}.

(** [executable::Executable]: the intent's action specs and the cursor. *)
Record Executable := mkExecutable {
  action_specs : list ActionSpec;
  action_idx : nat
}.

(** The three operational states the templates name
    ([futarchy_config::state_active()], [state_dissolving()],
    [state_dissolved()]); their numeric values are not in the sources. *)
Inductive OperationalState := state_active | state_dissolving | state_dissolved.

Definition OperationalState_eqb (a b : OperationalState) : bool :=
  match a, b with
  | state_active, state_active => true
  | state_dissolving, state_dissolving => true
  | state_dissolved, state_dissolved => true
  | _, _ => false
  end.

(** The part of [FutarchyConfig] the templates read and write. *)
Record FutarchyConfig := mkFutarchyConfig {
  operational_state : OperationalState;
  proposals_enabled : bool
}.

Record World := mkWorld {
  executable : Executable;
  account : FutarchyConfig
}.

(** Abort codes.  The templates name [EWrongAction],
    [EUnsupportedActionVersion] and the business codes; [EWrongActionType]
    is the abort of [action_validation::assert_action_type],
    [EMalformedPayload] stands for every abort raised while decoding
    ([sui::bcs], [bcs_validation], [string::utf8]) and [EIndexOutOfBounds]
    for [vector::borrow] past the end. *)
Inductive AbortCode :=
| EWrongActionType
| EWrongAction
| EUnsupportedActionVersion
| EMalformedPayload
| EIndexOutOfBounds
| EInvalidRatio
| EInvalidThreshold
| EDissolutionNotActive
| ENotDissolving
| EEmptyAssetList
| EInvalidRecipient.

(** The error taxonomy of the specification. *)
Inductive ErrorClass :=
| WrongActionType | UnsupportedVersion | MalformedPayload
| BusinessRule | ProgrammingDefect.

Definition error_class (c : AbortCode) : ErrorClass :=
  match c with
  | EWrongActionType | EWrongAction => WrongActionType
  | EUnsupportedActionVersion => UnsupportedVersion
  | EMalformedPayload => MalformedPayload
  | EIndexOutOfBounds => ProgrammingDefect
  | _ => BusinessRule
  end.

(** ** The transaction monad

    A Move function runs on the world and either returns, or aborts with a
    code.  The world reached at the abort is kept, so that what had been
    written before the abort can be stated; [commit] is the transaction
    boundary, where an abort discards it. *)
Inductive Outcome (A : Type) :=
| Done (a : A) (w : World)
| Aborted (code : AbortCode) (w : World).
Arguments Done {A} a w.
Arguments Aborted {A} code w.

Definition Tx (A : Type) := World -> Outcome A.

Definition ret {A} (a : A) : Tx A := fun w => Done a w.

Definition bind {A B} (m : Tx A) (f : A -> Tx B) : Tx B :=
  fun w =>
    match m w with
    | Done a w' => f a w'
    | Aborted code w' => Aborted code w'
    end.

Definition abort {A} (code : AbortCode) : Tx A := fun w => Aborted code w.

Declare Scope tx_scope.
Delimit Scope tx_scope with tx.
Notation "x <- m ;; k" := (bind m (fun x => k))
  (at level 61, m at next level, right associativity) : tx_scope.
Notation "' pat <- m ;; k" := (bind m (fun x => match x with pat => k end))
  (at level 61, pat pattern, m at next level, right associativity) : tx_scope.
Notation "m ;; k" := (bind m (fun _ => k))
  (at level 61, right associativity) : tx_scope.
Local Open Scope tx_scope.

(** [assert!(cond, code)] *)
Definition assert (cond : bool) (code : AbortCode) : Tx unit :=
  if cond then ret tt else abort code.

(** The world a transaction leaves behind: the one it reached when it
    returns, the one it started from when it aborts (a Move abort reverts
    every write of the transaction). *)
Definition commit {A} (w : World) (o : Outcome A) : World :=
  match o with
  | Done _ w' => w'
  | Aborted _ _ => w
  end.

(** [specs.borrow(executable::action_idx(executable))] on
    [executable::intent(executable).action_specs()]. *)
Definition current_spec : Tx ActionSpec :=
  fun w =>
    match nth_error (action_specs (executable w)) (action_idx (executable w)) with
    | Some spec => Done spec w
    | None => Aborted EIndexOutOfBounds w
    end.

(** Modelled from the spec: [action_validation::assert_action_type<K>(spec)]
    is not in the sources; it compares the spec's tag with [tag_of<K>()] and
    fails with WrongActionType when they differ. *)
Definition assert_action_type (expected : TypeName) (spec : ActionSpec) : Tx unit :=
  assert (String.eqb (action_spec_type spec) expected) EWrongActionType.

(** Modelled from the spec: [executable::is_current_action<Outcome, T>] is
    not in the sources; it tells whether the spec at the cursor carries the
    tag of [T] (there is none when the executable is exhausted). *)
Definition is_current_action (T : TypeName) : Tx bool :=
  fun w =>
    match nth_error (action_specs (executable w)) (action_idx (executable w)) with
    | Some spec => Done (String.eqb (action_spec_type spec) T) w
    | None => Done false w
    end.

(** Modelled from the spec: [executable::increment_action_idx] is not in
    the sources; advance moves the cursor by exactly one. *)
Definition increment_action_idx : Tx unit :=
  fun w =>
    Done tt (mkWorld (mkExecutable (action_specs (executable w))
                                   (S (action_idx (executable w))))
                     (account w)).

(** Modelled from the spec: [bcs_validation::validate_all_bytes_consumed]
    is not in the sources; the reader's finish call fails with
    MalformedPayload when bytes remain. *)
Definition validate_all_bytes_consumed (reader : bcs.BCS) : Tx unit :=
  assert (match bcs.into_remainder_bytes reader with [] => true | _ => false end)
         EMalformedPayload.

(** A peel inside a dispatch function: an abort of [sui::bcs] aborts the
    transaction. *)
Definition peel {A} (p : bcs.BCS -> option (A * bcs.BCS)) (reader : bcs.BCS)
  : Tx (A * bcs.BCS) :=
  match p reader with
  | Some r => ret r
  | None => abort EMalformedPayload
  end.

(** [string::utf8(bytes)] *)
Definition string_utf8 (bytes : list Z) : Tx (list Z) :=
  assert (internal_check_utf8 bytes) EMalformedPayload ;; ret bytes.

(** [futarchy_config] accessors on the account's config. *)
Definition get_operational_state : Tx OperationalState :=
  fun w => Done (operational_state (account w)) w.

Definition set_operational_state (s : OperationalState) : Tx unit :=
  fun w => Done tt (mkWorld (executable w)
                            (mkFutarchyConfig s (proposals_enabled (account w)))).

Definition set_proposals_enabled_internal (b : bool) : Tx unit :=
  fun w => Done tt (mkWorld (executable w)
                            (mkFutarchyConfig (operational_state (account w)) b)).

(** ** The dispatch functions written by the scripts *)

(** The tags of [futarchy_core::action_types] the templates name. *)
Definition InitiateDissolution : TypeName := "InitiateDissolution"%string.
Definition DistributeAsset : TypeName := "DistributeAsset"%string.
Definition FinalizeDissolution : TypeName := "FinalizeDissolution"%string.
Definition CancelDissolution : TypeName := "CancelDissolution"%string.

(** [@0x0] *)
Definition address_zero : list Z := repeat 0 bcs.address_length.

Definition address_eqb (a b : list Z) : bool :=
  if list_eq_dec Z.eq_dec a b then true else false.

(** The block under [// Safe BCS deserialization] of each dispatch
    function, from [bcs::new] on the action data to
    [bcs_validation::validate_all_bytes_consumed(reader)], with the locals it
    binds as its result. *)
Definition peel_initiate_dissolution (action_data : list Z)
  : Tx (list Z * Z * bool * Z) :=
  let reader := bcs.new action_data in
  '(reason, reader) <- peel bcs.peel_vec_u8 reader ;;
  '(distribution_method, reader) <- peel bcs.peel_u8 reader ;;
  '(burn_unsold_tokens, reader) <- peel bcs.peel_bool reader ;;
  '(final_operations_deadline, reader) <- peel bcs.peel_u64 reader ;;
  validate_all_bytes_consumed reader ;;
  ret (reason, distribution_method, burn_unsold_tokens, final_operations_deadline).

Definition peel_batch_distribute (action_data : list Z) : Tx (list (list Z)) :=
  let reader := bcs.new action_data in
  '(asset_types, reader) <- peel bcs.peel_vec_vec_u8 reader ;;
  validate_all_bytes_consumed reader ;;
  ret asset_types.

Definition peel_finalize_dissolution (action_data : list Z) : Tx (list Z * bool) :=
  let reader := bcs.new action_data in
  '(final_recipient, reader) <- peel bcs.peel_address reader ;;
  '(destroy_account, reader) <- peel bcs.peel_bool reader ;;
  validate_all_bytes_consumed reader ;;
  ret (final_recipient, destroy_account).

Definition peel_cancel_dissolution (action_data : list Z) : Tx (list Z) :=
  let reader := bcs.new action_data in
  '(reason_bytes, reader) <- peel bcs.peel_vec_u8 reader ;;
  reason <- string_utf8 reason_bytes ;;
  validate_all_bytes_consumed reader ;;
  ret reason.

(** [do_initiate_dissolution], the replacement text of
    [fix_dissolution_actions] (fix_financial_actions.py).  Borrowing the
    config ([account::config_mut], [account::config]) writes nothing and is
    left out, here and below. *)
Definition do_initiate_dissolution : Tx unit :=
  spec <- current_spec ;;
  assert_action_type InitiateDissolution spec ;;
  let action_data := action_spec_data spec in
  '(reason, distribution_method, burn_unsold_tokens, final_operations_deadline) <-
     peel_initiate_dissolution action_data ;;
  set_operational_state state_dissolving ;;
  set_proposals_enabled_internal false ;;
  assert (0 <? Z.of_nat (List.length reason)) EInvalidRatio ;;
  assert (distribution_method <=? 2) EInvalidRatio ;;
  assert (0 <? final_operations_deadline) EInvalidThreshold ;;
  let _ := burn_unsold_tokens in
  increment_action_idx.

(** [do_batch_distribute], same script. *)
Definition do_batch_distribute : Tx unit :=
  spec <- current_spec ;;
  assert_action_type DistributeAsset spec ;;
  let action_data := action_spec_data spec in
  asset_types <- peel_batch_distribute action_data ;;
  state <- get_operational_state ;;
  assert (OperationalState_eqb state state_dissolving) EDissolutionNotActive ;;
  assert (0 <? Z.of_nat (List.length asset_types)) EEmptyAssetList ;;
  increment_action_idx.

(** [do_finalize_dissolution], the replacement text of
    [fix_remaining_dissolution_actions] (complete_migration.py). *)
Definition do_finalize_dissolution : Tx unit :=
  spec <- current_spec ;;
  assert_action_type FinalizeDissolution spec ;;
  let action_data := action_spec_data spec in
  '(final_recipient, destroy_account) <- peel_finalize_dissolution action_data ;;
  state <- get_operational_state ;;
  assert (OperationalState_eqb state state_dissolving) EDissolutionNotActive ;;
  assert (negb (address_eqb final_recipient address_zero)) EInvalidRecipient ;;
  set_operational_state state_dissolved ;;
  (if destroy_account : bool then ret tt else ret tt) ;;
  increment_action_idx.

(** [do_cancel_dissolution], same script. *)
Definition do_cancel_dissolution : Tx unit :=
  spec <- current_spec ;;
  assert_action_type CancelDissolution spec ;;
  let action_data := action_spec_data spec in
  reason <- peel_cancel_dissolution action_data ;;
  state <- get_operational_state ;;
  assert (OperationalState_eqb state state_dissolving) ENotDissolving ;;
  assert (0 <? Z.of_nat (List.length reason)) EInvalidRatio ;;
  set_operational_state state_active ;;
  set_proposals_enabled_internal true ;;
  increment_action_idx.

(** The text both [fix_do_function] (fix_action_security.py) and
    [fix_next_action_call] (fix_all_actions.py) put in place of a
    [next_action] line, for the action type [action_type] they read from
    that line.  [bcs::from_bytes] at that type is not in the sources and is
    a parameter: [None] is its abort. *)
Section SecureNextAction.

Context {Action : Type}.
Variable action_type : TypeName.
Variable from_bytes : list Z -> option Action.

Definition secure_next_action : Tx Action :=
  current <- is_current_action action_type ;;
  assert current EWrongAction ;;
  spec <- current_spec ;;
  let action_data := action_spec_data spec in
  let spec_version := action_spec_version spec in
  assert (spec_version =? 1) EUnsupportedActionVersion ;;
  match from_bytes action_data with
  | Some action => ret action
  | None => abort EMalformedPayload
  end.

(** A rewritten [do_] function: the new text, what the function went on to
    do with the action, and the increment [fix_do_function] appends. *)
Variable body : Action -> Tx unit.

Definition do_secured : Tx unit :=
  action <- secure_next_action ;;
  body action ;;
  increment_action_idx.

End SecureNextAction.

(** [new_initiate_dissolution_action], the replacement text of
    [fix_dissolution_actions]: the asserts, the struct, its bytes.  [None]
    is an abort and carries its code. *)
Record InitiateDissolutionAction := mkInitiateDissolutionAction {
  reason : list Z;
  distribution_method : Z;
  burn_unsold_tokens : bool;
  final_operations_deadline : Z
}.

Definition to_bytes (action : InitiateDissolutionAction) : list Z :=
  bcs.vec_u8_to_bytes (reason action)
  ++ bcs.u8_to_bytes (distribution_method action)
  ++ bcs.bool_to_bytes (burn_unsold_tokens action)
  ++ bcs.u64_to_bytes (final_operations_deadline action).

Definition new_initiate_dissolution_action
    (reason : list Z) (distribution_method : Z) (burn_unsold_tokens : bool)
    (final_operations_deadline : Z) : AbortCode + list Z :=
  if negb (distribution_method <=? 2) then inl EInvalidRatio
  else if negb (0 <? Z.of_nat (List.length reason)) then inl EInvalidRatio
  else
    let action := mkInitiateDissolutionAction reason distribution_method
                    burn_unsold_tokens final_operations_deadline in
    let bytes := to_bytes action in
    inr bytes.

(** The dispatch functions a transaction calls, one after the other. *)
Inductive ActionKind :=
| KInitiateDissolution | KBatchDistribute | KFinalizeDissolution | KCancelDissolution.

Definition dispatch (k : ActionKind) : Tx unit :=
  match k with
  | KInitiateDissolution => do_initiate_dissolution
  | KBatchDistribute => do_batch_distribute
  | KFinalizeDissolution => do_finalize_dissolution
  | KCancelDissolution => do_cancel_dissolution
  end.

Definition tag_of (k : ActionKind) : TypeName :=
  match k with
  | KInitiateDissolution => InitiateDissolution
  | KBatchDistribute => DistributeAsset
  | KFinalizeDissolution => FinalizeDissolution
  | KCancelDissolution => CancelDissolution
  end.

Fixpoint dispatch_all (ks : list ActionKind) : Tx unit :=
  match ks with
  | [] => ret tt
  | k :: ks' => dispatch k ;; dispatch_all ks'
  end.

(** ** Python strings

    [str] on files of ASCII text: a string is a [string], an index a [nat];
    [find] and [rfind] return [-1] when there is no occurrence, as Python
    does. *)
Module Py.

Local Open Scope nat_scope.

Fixpoint drop (n : nat) (s : string) : string :=
  match n, s with
  | S n', String _ s' => drop n' s'
  | _, _ => s
  end.

Fixpoint take (n : nat) (s : string) : string :=
  match n, s with
  | S n', String c s' => String c (take n' s')
  | _, _ => EmptyString
  end.

(** [s[a:b]], [s[:b]] and [s[a:]] for indices that are not negative. *)
Definition slice (s : string) (a b : nat) : string := take (b - a) (drop a s).
Definition slice_to (s : string) (b : nat) : string := take b s.
Definition slice_from (s : string) (a : nat) : string := drop a s.

Definition len (s : string) : nat := String.length s.

(** [s[:z]] and [s[z:]] for any index [z]: a negative one counts from the
    end of the text. *)
Definition position (s : string) (z : Z) : nat :=
  if (z <? 0)%Z then Z.to_nat (Z.max 0 (Z.of_nat (len s) + z)) else Z.to_nat z.
Definition zslice_to (s : string) (z : Z) : string := take (position s z) s.
Definition zslice_from (s : string) (z : Z) : string := drop (position s z) s.

(** First index at or after [i] where [sub] starts, [s] being the text from
    index [i] on. *)
Fixpoint find_from (sub s : string) (i : nat) : option nat :=
  if String.prefix sub s then Some i
  else match s with
       | EmptyString => None
       | String _ s' => find_from sub s' (S i)
       end.

(** [s.find(sub, start)] *)
Definition find (s sub : string) (start : nat) : Z :=
  if len s <? start then (-1)%Z
  else match find_from sub (drop start s) start with
       | Some i => Z.of_nat i
       | None => (-1)%Z
       end.

(** Last index where [sub] starts. *)
Fixpoint rfind_from (sub s : string) (i : nat) (last : option nat) : option nat :=
  let last' := if String.prefix sub s then Some i else last in
  match s with
  | EmptyString => last'
  | String _ s' => rfind_from sub s' (S i) last'
  end.

(** [s.rfind(sub)] *)
Definition rfind (s sub : string) : Z :=
  match rfind_from sub s 0 None with
  | Some i => Z.of_nat i
  | None => (-1)%Z
  end.

(** [sub in s] *)
Definition contains (sub s : string) : bool :=
  match find_from sub s 0 with
  | Some _ => true
  | None => false
  end.

(** [s.replace(old, new)] for a non-empty [old]: every occurrence, left to
    right, none overlapping another.  [skip] counts the characters of an
    occurrence still to be passed over. *)
Fixpoint replace_aux (old new s : string) (skip : nat) {struct s} : string :=
  match skip with
  | S k =>
      match s with
      | EmptyString => EmptyString
      | String _ s' => replace_aux old new s' k
      end
  | O =>
      match s with
      | EmptyString => EmptyString
      | String c s' =>
          if String.prefix old s
          then new ++ replace_aux old new s' (len old - 1)
          else String c (replace_aux old new s' 0)
      end
  end.

Definition replace (s old new : string) : string := replace_aux old new s 0.

End Py.

(** ** Python regular expressions

    The part of [re] the scripts use, with the matching order of a
    backtracking engine: a greedy repetition tries one more round before it
    tries to go on, a lazy one the other way round, an alternative its left
    side first.  Groups are numbered as in the pattern. *)
Module re.

Local Open Scope nat_scope.

Inductive regex :=
| Eps
| Lit (s : string)
| Class (p : ascii -> bool)
| Cat (r1 r2 : regex)
| Alt (r1 r2 : regex)
| Star (greedy : bool) (r : regex)
| Group (n : nat) (r : regex).

Definition captures := list (nat * (nat * nat)).

Record Match := mkMatch {
  mstart : nat;
  mend : nat;
  mgroups : captures
}.

Fixpoint strip_prefix (p s : string) : option string :=
  match p with
  | EmptyString => Some s
  | String c p' =>
      match s with
      | EmptyString => None
      | String d s' => if Ascii.eqb c d then strip_prefix p' s' else None
      end
  end.

(** [rmatch r s i caps k]: match [r] at index [i], where the text from [i]
    on is [s], then go on with [k]; the first way that makes [k] succeed is
    the one taken. *)
Fixpoint rmatch {R : Type} (r : regex) (s : string) (i : nat) (caps : captures)
    (k : string -> nat -> captures -> option R) {struct r} : option R :=
  match r with
  | Eps => k s i caps
  | Lit l =>
      match strip_prefix l s with
      | Some s' => k s' (i + String.length l) caps
      | None => None
      end
  | Class p =>
      match s with
      | String c s' => if p c then k s' (S i) caps else None
      | EmptyString => None
      end
  | Cat r1 r2 =>
      rmatch r1 s i caps (fun s' i' caps' => rmatch r2 s' i' caps' k)
  | Alt r1 r2 =>
      match rmatch r1 s i caps k with
      | Some x => Some x
      | None => rmatch r2 s i caps k
      end
  | Star greedy r1 =>
      (fix rounds (fuel : nat) (s : string) (i : nat) (caps : captures)
         {struct fuel} : option R :=
         match fuel with
         | O => k s i caps
         | S fuel' =>
             let more (_ : unit) :=
               rmatch r1 s i caps
                 (fun s' i' caps' =>
                    if i' =? i then None else rounds fuel' s' i' caps') in
             if greedy then
               match more tt with
               | Some x => Some x
               | None => k s i caps
               end
             else
               match k s i caps with
               | Some x => Some x
               | None => more tt
               end
         end) (S (String.length s)) s i caps
  | Group n r1 =>
      rmatch r1 s i caps (fun s' i' caps' => k s' i' ((n, (i, i')) :: caps'))
  end.

(** [pattern.match] at index [i]. *)
Definition match_at (r : regex) (s : string) (i : nat) : option Match :=
  rmatch r s i [] (fun _ e caps => Some (mkMatch i e caps)).

(** Leftmost match starting at or after [i]. *)
Fixpoint search_from (r : regex) (s : string) (i : nat) : option Match :=
  match match_at r s i with
  | Some m => Some m
  | None =>
      match s with
      | EmptyString => None
      | String _ s' => search_from r s' (S i)
      end
  end.

(** [re.search(pattern, s)] *)
Definition search (r : regex) (s : string) : option Match := search_from r s 0.

(** [re.finditer(pattern, s)], for patterns that match no empty text: the
    search goes on where the last match ended. *)
Fixpoint finditer_from (fuel : nat) (r : regex) (s : string) (i : nat) : list Match :=
  match fuel with
  | O => []
  | S fuel' =>
      match search_from r s i with
      | None => []
      | Some m =>
          let next := Nat.max (mend m) (S (mstart m)) in
          m :: finditer_from fuel' r (Py.drop (next - i) s) next
      end
  end.

Definition finditer (r : regex) (s : string) : list Match :=
  finditer_from (S (String.length s)) r s 0.

(** [m.group(0)] and [m.group(n)] of a match in [s]. *)
Definition group0 (s : string) (m : Match) : string :=
  Py.slice s (mstart m) (mend m).

Fixpoint lookup (n : nat) (caps : captures) : option (nat * nat) :=
  match caps with
  | [] => None
  | (n', span) :: caps' => if n' =? n then Some span else lookup n caps'
  end.

Definition group (s : string) (m : Match) (n : nat) : string :=
  match lookup n (mgroups m) with
  | Some (a, b) => Py.slice s a b
  | None => EmptyString
  end.

(** [re.sub(pattern, repl, s)] with a function [repl] of the match; at most
    [count] replacements when [count] is given. *)
Fixpoint sub_from (fuel : nat) (r : regex) (repl : Match -> string)
    (whole s : string) (i : nat) (count : option nat) : string :=
  match fuel with
  | O => s
  | S fuel' =>
      match count with
      | Some O => s
      | _ =>
          match search_from r s i with
          | None => s
          | Some m =>
              let next := Nat.max (mend m) (S (mstart m)) in
              (Py.slice whole i (mstart m) ++ repl m ++
               sub_from fuel' r repl whole (Py.drop (next - i) s) next
                 (option_map Nat.pred count))%string
          end
      end
  end.

Definition sub (r : regex) (repl : Match -> string) (s : string)
    (count : option nat) : string :=
  sub_from (S (String.length s)) r repl s s 0 count.

(** Character classes and the derived forms. *)
Definition is_digit (c : ascii) : bool :=
  let n := nat_of_ascii c in (48 <=? n) && (n <=? 57).
Definition is_upper (c : ascii) : bool :=
  let n := nat_of_ascii c in (65 <=? n) && (n <=? 90).
Definition is_lower (c : ascii) : bool :=
  let n := nat_of_ascii c in (97 <=? n) && (n <=? 122).

(** [\w] *)
Definition word (c : ascii) : bool :=
  is_digit c || is_upper c || is_lower c || (nat_of_ascii c =? 95).

(** [\s] on a [str]: space, tab, line feed, vertical tab, form feed,
    carriage return and the four separators 28 to 31. *)
Definition space (c : ascii) : bool :=
  let n := nat_of_ascii c in
  (n =? 32) || ((9 <=? n) && (n <=? 13)) || ((28 <=? n) && (n <=? 31)).

(** [[^x]] *)
Definition other_than (x : ascii) (c : ascii) : bool := negb (Ascii.eqb c x).

(** [.] under [re.DOTALL] *)
Definition any (c : ascii) : bool := true.

Definition plus (p : ascii -> bool) : regex := Cat (Class p) (Star true (Class p)).
Definition star (p : ascii -> bool) : regex := Star true (Class p).
Definition lazy_star (p : ascii -> bool) : regex := Star false (Class p).
Definition opt (r : regex) : regex := Alt r Eps.

Fixpoint seq (rs : list regex) : regex :=
  match rs with
  | [] => Eps
  | [r] => r
  | r :: rs' => Cat r (seq rs')
  end.

End re.

(** A line feed, for the short literals of the scripts. *)
Definition nl : string := String (ascii_of_nat 10) EmptyString.

(** ** contracts/fix_action_security.py

    A file is its text.  [process_file] returns what the Python function
    returns, and the text of the file after the call. *)
Module fix_action_security.

Import Py re.
Local Open Scope string_scope.

(** [r'let action.*?=.*?executable(?:::)?\.next_action.*?\);'], DOTALL *)
Definition next_action_pattern : regex :=
  seq [Lit "let action"; lazy_star any; Lit "="; lazy_star any;
       Lit "executable"; opt (Lit "::"); Lit ".next_action";
       lazy_star any; Lit ");"].

(** [r'let action:\s*&?(\w+)\s*='] *)
Definition action_type_pattern : regex :=
  seq [Lit "let action:"; star space; opt (Lit "&"); Group 1 (plus word);
       star space; Lit "="].

(** [r'next_action<[^,]+,\s*(\w+)'] *)
Definition generic_pattern : regex :=
  seq [Lit "next_action<"; plus (other_than ","); Lit ","; star space;
       Group 1 (plus word)].

(** [r'public fun do_\w+<[^>]+>\s*\([^)]+\)[^{]*\{'] *)
Definition do_func_pattern : regex :=
  seq [Lit "public fun do_"; plus word; Lit "<"; plus (other_than ">");
       Lit ">"; star space; Lit "("; plus (other_than ")"); Lit ")";
       star (other_than "{"); Lit "{"].

(** The secure text put in place of the [next_action] line. *)
Definition replacement (action_type : string) : string :=
  "// Verify this is the current action
    assert!(executable::is_current_action<Outcome, " ++ action_type ++
  ">(executable), EWrongAction);

    // Get BCS bytes from ActionSpec
    let specs = executable::intent(executable).action_specs();
    let spec = specs.borrow(executable::action_idx(executable));
    let action_data = protocol_intents::action_spec_data(spec);

    // Check version before deserialization
    let spec_version = protocol_intents::action_spec_version(spec);
    assert!(spec_version == 1, EUnsupportedActionVersion);

    // Deserialize the action
    let action: " ++ action_type ++ " = bcs::from_bytes(*action_data);".

(** The loop that looks for the closing brace of the function: [s] is the
    text from index [i] on. *)
Fixpoint scan_braces (s : string) (i : nat) (brace_count : Z) (in_func : bool)
  : option nat :=
  match s with
  | EmptyString => None
  | String c s' =>
      if Ascii.eqb c "{" then scan_braces s' (S i) (brace_count + 1)%Z true
      else if Ascii.eqb c "}" then
        let brace_count := (brace_count - 1)%Z in
        if in_func && (brace_count =? 0)%Z then Some (S i)
        else scan_braces s' (S i) brace_count in_func
      else scan_braces s' (S i) brace_count in_func
  end.

Definition fix_do_function (content : string) (function_match : Match)
  : option string :=
  let func_start := mstart function_match in
  let func_end :=
    match scan_braces (drop func_start content) func_start 0%Z false with
    | Some e => e
    | None => func_start
    end in
  let func_content := slice content func_start func_end in
  match search next_action_pattern func_content with
  | None => None
  | Some next_action_match =>
      let line := group0 func_content next_action_match in
      let type_match :=
        match search action_type_pattern line with
        | Some m => Some m
        | None => search generic_pattern line
        end in
      match type_match with
      | None => None
      | Some type_match =>
          let action_type := group line type_match 1 in
          let original_line := line in
          let new_func_content :=
            replace func_content original_line (replacement action_type) in
          let new_func_content :=
            if contains "executable::increment_action_idx" new_func_content
            then new_func_content
            else
              let last_brace := rfind new_func_content "}" in
              if (0 <? last_brace)%Z then
                slice_to new_func_content (Z.to_nat last_brace)
                ++ nl ++ "    // Increment action index" ++ nl
                ++ "    executable::increment_action_idx(executable);" ++ nl
                ++ slice_from new_func_content (Z.to_nat last_brace)
              else new_func_content in
          Some (slice_to content func_start ++ new_func_content
                ++ slice_from content func_end)
      end
  end.

(** The loop of [process_file] over the matches found in the text as it was
    read: [content] is rebound on the way, the matches are not. *)
Fixpoint fix_functions (matches : list Match) (content : string) (modified : bool)
  : string * bool :=
  match matches with
  | [] => (content, modified)
  | m :: rest =>
      let func_start := mstart m in
      let func_preview := slice content func_start (func_start + 1000) in
      if contains "next_action" func_preview then
        match fix_do_function content m with
        | Some new_content =>
            if (len new_content =? 0)%nat then fix_functions rest content modified
            else fix_functions rest new_content true
        | None => fix_functions rest content modified
        end
      else fix_functions rest content modified
  end.

(** The three blocks under [if modified:], one function each. *)
Definition ensure_bcs_import (content : string) : string :=
  if negb (contains "use sui::bcs" content) then
    let sui_import_pos := find content "use sui::" 0 in
    if (0 <=? sui_import_pos)%Z then
      let next_use := find content (nl ++ "use ") (Z.to_nat (sui_import_pos + 1)) in
      if (0 <? next_use)%Z then
        slice_to content (Z.to_nat next_use) ++ "    bcs::{Self, BCS}," ++ nl
        ++ slice_from content (Z.to_nat next_use)
      else content
    else content
  else content.

Definition ensure_error_constant (content : string) : string :=
  if negb (contains "const EWrongAction" content) then
    let error_section := find content "// === Errors ===" 0 in
    if (0 <=? error_section)%Z then
      let next_section := find content "// ===" (Z.to_nat (error_section + 1)) in
      if (0 <? next_section)%Z then
        slice_to content (Z.to_nat next_section)
        ++ "const EWrongAction: u64 = 9999;" ++ nl
        ++ "const EUnsupportedActionVersion: u64 = 9998;" ++ nl ++ nl
        ++ slice_from content (Z.to_nat next_section)
      else content
    else content
  else content.

Definition ensure_alias (content : string) : string :=
  if negb (contains "protocol_intents" content) then
    let use_section_end := rfind content "use " in
    if (0 <=? use_section_end)%Z then
      let next_line := find content nl (Z.to_nat use_section_end) in
      if (0 <? next_line)%Z then
        slice_to content (Z.to_nat (next_line + 1))
        ++ nl ++ "// === Aliases ===" ++ nl
        ++ "use account_protocol::intents as protocol_intents;" ++ nl ++ nl
        ++ slice_from content (Z.to_nat (next_line + 1))
      else content
    else content
  else content.

Definition process_file (file : string) : bool * string :=
  let content := file in
  if negb (contains "executable.next_action" content)
     && negb (contains "executable::next_action" content)
  then (false, file)
  else
    let '(content, modified) :=
      fix_functions (finditer do_func_pattern content) content false in
    if modified then
      let content := ensure_bcs_import content in
      let content := ensure_error_constant content in
      let content := ensure_alias content in
      (true, content)
    else (false, file).

End fix_action_security.

(** ** contracts/fix_financial_actions.py

    The text [fix_dissolution_actions] writes for
    [new_initiate_dissolution_action]. *)
Module fix_financial_actions.

Definition new_initiate_replacement : string :=
"public fun new_initiate_dissolution_action(
    reason: String,
    distribution_method: u8,
    burn_unsold_tokens: bool,
    final_operations_deadline: u64,
): vector<u8> {
    assert!(distribution_method <= 2, EInvalidRatio); // 0, 1, or 2
    assert!(reason.length() > 0, EInvalidRatio);

    let action = InitiateDissolutionAction {
        reason,
        distribution_method,
        burn_unsold_tokens,
        final_operations_deadline,
    };
    let bytes = bcs::to_bytes(&action);
    // Destroy the action struct after serialization
    let InitiateDissolutionAction { reason: _, distribution_method: _, burn_unsold_tokens: _, final_operations_deadline: _ } = action;
    bytes
}".

End fix_financial_actions.

(** ** contracts/fix_decoder_issues.py *)
Module fix_decoder_issues.

Import Py.
Local Open Scope string_scope.

Definition replacements : list (string * string) :=
  [ ("type_name::get<CreateStreamAction<CoinPlaceholder>>()",
     "type_name::with_defining_ids<CreateStreamActionDecoder>() // TODO: Fix");
    ("type_name::get<CancelStreamAction>()",
     "type_name::with_defining_ids<CancelStreamActionDecoder>() // TODO: Fix");
    ("type_name::get<WithdrawStreamAction>()",
     "type_name::with_defining_ids<WithdrawStreamActionDecoder>() // TODO: Fix");
    ("type_name::get<UpdateStreamAction>()",
     "type_name::with_defining_ids<UpdateStreamActionDecoder>() // TODO: Fix");
    ("type_name::get<PauseStreamAction>()",
     "type_name::with_defining_ids<PauseStreamActionDecoder>() // TODO: Fix");
    ("type_name::get<ResumeStreamAction>()",
     "type_name::with_defining_ids<ResumeStreamActionDecoder>() // TODO: Fix") ].

Definition stream_imports : string :=
"use futarchy_lifecycle::stream_actions::{
    CreateStreamAction,
    CancelStreamAction,
    WithdrawStreamAction,
    UpdateStreamAction,
    PauseStreamAction,
    ResumeStreamAction,
};".

Definition stream_imports_commented : string :=
"// TODO: Fix these imports - action names don't match stream_actions module
// use futarchy_lifecycle::stream_actions::{
//     CreateStreamAction,
//     CancelStreamAction,
//     WithdrawStreamAction,
//     UpdateStreamAction,
//     PauseStreamAction,
//     ResumeStreamAction,
// };".

(** [for old, new in replacements: content = content.replace(old, new)] *)
Definition replace_all (replacements : list (string * string)) (content : string)
  : string :=
  fold_left (fun content '(old, new) => replace content old new)
            replacements content.

(** [fix_stream_decoder], from the text read to the text written. *)
Definition fix_stream_decoder (content : string) : string :=
  let content := replace content stream_imports stream_imports_commented in
  replace_all replacements content.

(** [r'type_name::get<([^>]+)>\(\)'] *)
Definition type_name_get_pattern : re.regex :=
  re.seq [re.Lit "type_name::get<"; re.Group 1 (re.plus (re.other_than ">"));
          re.Lit ">()"].

(** [fix_all_type_name_get_calls] on one decoder file, from the text read
    to the text written. *)
Definition fix_all_type_name_get_calls (content : string) : string :=
  let content :=
    re.sub type_name_get_pattern
           (fun m => "type_name::with_defining_ids<" ++ re.group content m 1 ++ ">()")
           content None in
  let content := replace content "type_name::get_address" "type_name::address_string" in
  let content := replace content "type_name::get_module" "type_name::module_string" in
  content.

End fix_decoder_issues.

(** ** contracts/fix_all_issues.py *)
Module fix_all_issues.

Import Py re.
Local Open Scope string_scope.

(** The first pattern of [fix_p0_increment_action_idx]:
    [(public fun do_\w+[^{]*\{[^}]*action_validation::assert_action_type[^}]*bcs_validation::validate_all_bytes_consumed[^}]*?)(\n\})] *)
Definition pattern : regex :=
  Cat (Group 1 (seq [Lit "public fun do_"; plus word; star (other_than "{");
                     Lit "{"; star (other_than "}");
                     Lit "action_validation::assert_action_type";
                     star (other_than "}");
                     Lit "bcs_validation::validate_all_bytes_consumed";
                     lazy_star (other_than "}")]))
      (Group 2 (Lit (nl ++ "}"))).

(** [(public fun do_\w+[^}]*executable: &mut Executable[^}]*\{[^}]*?)(\n\})] *)
Definition pattern2 : regex :=
  Cat (Group 1 (seq [Lit "public fun do_"; plus word; star (other_than "}");
                     Lit "executable: &mut Executable"; star (other_than "}");
                     Lit "{"; lazy_star (other_than "}")]))
      (Group 2 (Lit (nl ++ "}"))).

(** [\n\s+\w+\s*\n\}], the test for a function that ends in an expression. *)
Definition last_expression_pattern : regex :=
  seq [Lit nl; plus space; plus word; star space; Lit (nl ++ "}")].

Definition increment_text : string :=
  nl ++ nl ++ "    // Execute and increment" ++ nl
  ++ "    executable::increment_action_idx(executable);".


Definition check_and_add_increment (content : string) (m : Match) : string :=
  let func_body := group content m 1 in
  let closing := group content m 2 in
  if contains "executable::increment_action_idx" func_body
     || contains "): Resource" func_body
  then group0 content m
  else
    match search last_expression_pattern func_body with
    | Some _ => group0 content m
    | None => func_body ++ increment_text ++ closing
    end.


(** The stream decoder half of [fix_p1_decoder_registrations]. *)
Definition stream_replacements : list (string * string) :=
  [ ("type_name::with_defining_ids<CreateStreamActionDecoder>(); // TODO: Fix",
     "type_name::with_defining_ids<CreateStreamAction<CoinPlaceholder>>()");
    ("type_name::with_defining_ids<CancelStreamActionDecoder>(); // TODO: Fix",
     "type_name::with_defining_ids<CancelStreamAction>()");
    ("type_name::with_defining_ids<WithdrawStreamActionDecoder>(); // TODO: Fix",
     "type_name::with_defining_ids<WithdrawStreamAction>()");
    ("type_name::with_defining_ids<UpdateStreamActionDecoder>(); // TODO: Fix",
     "type_name::with_defining_ids<UpdateStreamAction>()");
    ("type_name::with_defining_ids<PauseStreamActionDecoder>(); // TODO: Fix",
     "type_name::with_defining_ids<PauseStreamAction>()");
    ("type_name::with_defining_ids<ResumeStreamActionDecoder>(); // TODO: Fix",
     "type_name::with_defining_ids<ResumeStreamAction>()") ].

Definition fix_p1_stream_decoder (content : string) : string :=
  let content :=
    replace content fix_decoder_issues.stream_imports_commented
            fix_decoder_issues.stream_imports in
  fix_decoder_issues.replace_all stream_replacements content.

(** The dissolution half of [fix_p2_revert_new_functions]: each signature
    pattern [public fun new_NAME_action\(([^)]+)\): vector<u8>] is replaced
    by [public fun new_NAME_action(\1): RESULT], then the serialisation
    lines by [    action]. *)
Definition signature_pattern (name : string) : regex :=
  seq [Lit ("public fun new_" ++ name ++ "_action("); Group 1 (plus (other_than ")"));
       Lit "): vector<u8>"].

Definition revert_signature (name result : string) (content : string) : string :=
  sub (signature_pattern name)
      (fun m => "public fun new_" ++ name ++ "_action(" ++ group content m 1
                ++ "): " ++ result)
      content None.

(** [    let bytes = bcs::to_bytes\(&action\);\n    // Destroy the action struct after serialization\n    let [^}]+ = action;\n    bytes] *)
Definition serialization_pattern : regex :=
  seq [Lit ("    let bytes = bcs::to_bytes(&action);" ++ nl
            ++ "    // Destroy the action struct after serialization" ++ nl
            ++ "    let ");
       plus (other_than "}");
       Lit (" = action;" ++ nl ++ "    bytes")].

Definition fix_p2_dissolution (content : string) : string :=
  let content := revert_signature "initiate_dissolution" "InitiateDissolutionAction" content in
  let content := revert_signature "batch_distribute" "BatchDistributeAction" content in
  let content := revert_signature "finalize_dissolution" "FinalizeDissolutionAction" content in
  let content := revert_signature "cancel_dissolution" "CancelDissolutionAction" content in
  sub serialization_pattern (fun _ => "    action") content None.

(** The text of [missing_structs] in [fix_p1_create_missing_stream_actions]. *)
Definition missing_structs : string :=
  "
// === Missing Action Structs for Decoders ===

/// Action to create a stream payment
public struct CreateStreamAction<phantom CoinType> has store, drop, copy {
    recipient: address,
    amount_per_period: u64,
    period_duration_ms: u64,
    start_time: u64,
    end_time: Option<u64>,
    cliff_time: Option<u64>,
    cancellable: bool,
    description: String,
}

/// Action to cancel a stream
public struct CancelStreamAction has store, drop, copy {
    stream_id: ID,
    reason: String,
}

/// Action to withdraw from a stream
public struct WithdrawStreamAction has store, drop, copy {
    stream_id: ID,
    amount: u64,
}

/// Action to update stream parameters
public struct UpdateStreamAction has store, drop, copy {
    stream_id: ID,
    new_recipient: Option<address>,
    new_amount_per_period: Option<u64>,
}

/// Action to pause a stream
public struct PauseStreamAction has store, drop, copy {
    stream_id: ID,
    reason: String,
}

/// Action to resume a paused stream
public struct ResumeStreamAction has store, drop, copy {
    stream_id: ID,
}
".

(** [fix_p1_create_missing_stream_actions], from the text read to the text
    of the file afterwards: the file is written only when the heading is
    found past index 0. *)
Definition fix_p1_create_missing_stream_actions (content : string) : string :=
  let insert_position := find content "// === Errors ===" 0 in
  if (0 <? insert_position)%Z then
    zslice_to content insert_position ++ missing_structs ++ nl
    ++ zslice_from content insert_position
  else content.

End fix_all_issues.

(** ** contracts/fix_all_actions.py *)
Module fix_all_actions.

Import Py re.
Local Open Scope string_scope.

Definition alias_text : string :=
  nl ++ nl ++ "// === Aliases ===" ++ nl
  ++ "use account_protocol::intents as protocol_intents;" ++ nl.

Definition ensure_imports (content : string) : string :=
  let content :=
    if negb (contains "bcs::{Self" content) && negb (contains "bcs::" content)
    then replace content "use sui::{" ("use sui::{" ++ nl ++ "    bcs::{Self, BCS},")
    else content in
  let content :=
    if negb (contains "object::{Self" content) && negb (contains "object::id" content)
    then
      let content := replace content "object::ID" "object::{Self, ID}" in
      replace content "object," "object::{Self, ID},"
    else content in
  let content :=
    if negb (contains "use account_protocol::intents as protocol_intents" content)
    then
      let account_import_pos := find content "use account_protocol::" 0 in
      if (0 <=? account_import_pos)%Z then
        let next_use := find content (nl ++ "use ") (Z.to_nat account_import_pos) in
        if (0 <? next_use)%Z then
          zslice_to content next_use ++ alias_text ++ zslice_from content next_use
        else
          let import_end := rfind content "};" in
          if (0 <? import_end)%Z then
            let next_line := find content nl (Z.to_nat import_end) in
            zslice_to content next_line ++ alias_text ++ zslice_from content next_line
          else content
      else content
    else content in
  if negb (contains ("," ++ nl ++ "    intents") content)
     && negb (contains (nl ++ "    intents,") content)
  then replace content "version_witness::VersionWitness"
               ("version_witness::VersionWitness," ++ nl ++ "    intents")
  else content.

Definition error_constants : string :=
  "const EWrongAction: u64 = 9999;" ++ nl
  ++ "const EUnsupportedActionVersion: u64 = 9998;" ++ nl.

Definition ensure_error_constants (content : string) : string :=
  if negb (contains "const EWrongAction" content) then
    let error_pos := find content "// === Errors ===" 0 in
    if (0 <=? error_pos)%Z then
      let next_section := find content (nl ++ "// ===") (Z.to_nat (error_pos + 1)) in
      let next_section :=
        if (next_section <? 0)%Z
        then find content (nl ++ "public ") (Z.to_nat error_pos)
        else next_section in
      if (0 <? next_section)%Z then
        zslice_to content next_section ++ nl ++ error_constants
        ++ zslice_from content next_section
      else content
    else
      let module_end := find content "module " 0 in
      if (0 <=? module_end)%Z then
        let next_line := find content nl (Z.to_nat module_end) in
        zslice_to content next_line ++ nl ++ nl ++ "// === Errors ===" ++ nl
        ++ error_constants ++ zslice_from content next_line
      else content
  else content.

(** The five patterns of [fix_next_action_call], each with its [is_ref]. *)
Definition let_typed (amp : bool) (call : string) : regex :=
  seq [Lit "let"; plus space; Group 1 (plus word); Lit ":"; star space;
       (if amp then Lit "&" else Eps); Group 2 (plus word); star space;
       Lit "="; star space; Lit call; Lit "("; plus (other_than ")"); Lit ");"].

Definition let_generic : regex :=
  seq [Lit "let"; plus space; Group 1 (plus word); star space; Lit "=";
       star space; Lit "executable::next_action<"; plus (other_than ",");
       Lit ","; star space; Group 2 (plus word); star (other_than ">");
       Lit ">"; Lit "("; plus (other_than ")"); Lit ");"].

Definition patterns : list (regex * bool) :=
  [ (let_typed true "executable::next_action", true);
    (let_typed false "executable::next_action", false);
    (let_generic, false);
    (let_typed true "executable.next_action", true);
    (let_typed false "executable.next_action", false) ].

(** The replacement text; the script builds the same text in both branches
    of [if is_ref]. *)
Definition replacement (var_name action_type : string) : string :=
  "// Verify this is the current action
    assert!(executable::is_current_action<Outcome, " ++ action_type ++
  ">(executable), EWrongAction);

    // Get BCS bytes from ActionSpec
    let specs = executable::intent(executable).action_specs();
    let spec = specs.borrow(executable::action_idx(executable));
    let action_data = protocol_intents::action_spec_data(spec);

    // Check version before deserialization
    let spec_version = protocol_intents::action_spec_version(spec);
    assert!(spec_version == 1, EUnsupportedActionVersion);

    // Deserialize the action
    let " ++ var_name ++ ": " ++ action_type ++ " = bcs::from_bytes(*action_data);".

(** The inner loop: the matches were found in [scanned], the text as it was
    when the loop over this pattern began. *)
Fixpoint replace_matches (scanned : string) (is_ref : bool) (matches : list Match)
    (content : string) : string :=
  match matches with
  | [] => content
  | m :: rest =>
      let var_name := group scanned m 1 in
      let action_type := group scanned m 2 in
      let original := group0 scanned m in
      let replacement :=
        if is_ref then replacement var_name action_type
        else replacement var_name action_type in
      replace_matches scanned is_ref rest (replace content original replacement)
  end.

Definition fix_next_action_call (content : string) : string :=
  fold_left
    (fun content '(pattern, is_ref) =>
       replace_matches content is_ref (finditer pattern content) content)
    patterns content.

(** [(public fun do_\w+<[^>]+>\s*\([^)]+\)[^{]*\{[^}]+\})] *)
Definition do_func_pattern : regex :=
  Group 1 (seq [Lit "public fun do_"; plus word; Lit "<"; plus (other_than ">");
                Lit ">"; star space; Lit "("; plus (other_than ")"); Lit ")";
                star (other_than "{"); Lit "{"; plus (other_than "}"); Lit "}"]).

Definition add_increment (content : string) (m : Match) : string :=
  let func_content := group0 content m in
  if contains "executable::increment_action_idx" func_content then func_content
  else
    let last_brace_pos := rfind func_content "}" in
    if (0 <? last_brace_pos)%Z then
      zslice_to func_content last_brace_pos
      ++ nl ++ nl ++ "    // Increment action index" ++ nl
      ++ "    executable::increment_action_idx(executable);" ++ nl
      ++ zslice_from func_content last_brace_pos
    else func_content.

Definition ensure_increment_action_idx (content : string) : string :=
  sub do_func_pattern (add_increment content) content None.

Definition process_file (file : string) : bool * string :=
  let content := file in
  if negb (contains "next_action" content) then (false, file)
  else
    let original_content := content in
    let content := ensure_imports content in
    let content := ensure_error_constants content in
    let content := fix_next_action_call content in
    let content := ensure_increment_action_idx content in
    if negb (String.eqb content original_content) then (true, content)
    else (false, file).

End fix_all_actions.

(** ** contracts/complete_migration.py

    The functions that rewrite the text of a file, each from the text read
    to the text written. *)
Module complete_migration.

Import Py re.
Local Open Scope string_scope.

Definition fix_stream_actions (content : string) : string :=
  let content :=
    if negb (contains "action_validation" content) then
      sub (Lit "use futarchy_core::")
          (fun _ => "use futarchy_core::{
    action_validation,
    action_types,")
          content (Some 1%nat)
    else content in
  let content :=
    if negb (contains "bcs_validation" content) then
      sub (Lit "use account_protocol::{")
          (fun _ => "use account_protocol::{
    bcs_validation,")
          content (Some 1%nat)
    else content in
  content.

Definition fix_oracle_actions (content : string) : string :=
  let content :=
    if negb (contains "action_validation" content) then
      sub (Lit "use futarchy_core::")
          (fun _ => "use futarchy_core::{
    action_validation,
    action_types,")
          content (Some 1%nat)
    else content in
  content.

(** [r'type_name::get<([^>]+)>\(\)'] *)
Definition type_name_get_pattern : regex :=
  seq [Lit "type_name::get<"; Group 1 (plus (other_than ">")); Lit ">()"].

Definition fix_liquidity_decoder (content : string) : string :=
  let content :=
    sub type_name_get_pattern
        (fun m => "type_name::with_defining_ids<" ++ group content m 1 ++ ">()")
        content None in
  let content := replace content "type_name::get_address" "type_name::address_string" in
  let content := replace content "type_name::get_module" "type_name::module_string" in
  content.

End complete_migration.

(** ** Vocabulary of the statements *)

(** The world a run stopped in: the one returned, or the one reached when
    the abort happened. *)
Definition reached {A} (o : Outcome A) : World :=
  match o with
  | Done _ w => w
  | Aborted _ w => w
  end.

(** The abort code of a run, if it aborted. *)
Definition abort_code {A} (o : Outcome A) : option AbortCode :=
  match o with
  | Done _ _ => None
  | Aborted code _ => Some code
  end.


Definition world_of (specs : list ActionSpec) (idx : nat)
    (state : OperationalState) (proposals : bool) : World :=
  mkWorld (mkExecutable specs idx) (mkFutarchyConfig state proposals).

(** Inputs of the examples.  [ascii_bytes] gives the bytes of an ASCII
    text. *)
Definition ascii_bytes (s : string) : list Z :=
  map (fun c => Z.of_nat (nat_of_ascii c)) (list_ascii_of_string s).

Definition wind_down : list Z := ascii_bytes "wind down".

(** A spec tagged [CancelDissolution] whose bytes no decoder accepts. *)
Definition garbage_spec : ActionSpec :=
  mkActionSpec CancelDissolution 1 [255; 255; 255; 255; 255; 255].

(** [InitiateDissolution], version 1, payload
    [("wind down", 1, false, 1000)]. *)
Definition initiate_payload : list Z :=
  to_bytes (mkInitiateDissolutionAction wind_down 1 false 1000).

Definition initiate_spec : ActionSpec :=
  mkActionSpec InitiateDissolution 1 initiate_payload.

(** The same kind with an empty reason. *)
Definition empty_reason_spec : ActionSpec :=
  mkActionSpec InitiateDissolution 1
    (to_bytes (mkInitiateDissolutionAction [] 1 false 1000)).

(** [FinalizeDissolution] with schema version 2: recipient [@0x1], no
    account destruction. *)
Definition recipient_one : list Z := repeat 0 31 ++ [1].

Definition finalize_v2_spec : ActionSpec :=
  mkActionSpec FinalizeDissolution 2 (recipient_one ++ [0]).

(** A Move file with two vulnerable functions. *)
Definition two_functions : string :=
"module futarchy::memo_actions;

public fun do_a<Outcome: store>(executable: &mut Executable<Outcome>, w: W) {
    let action: &FooAction = executable.next_action(w);
}

public fun do_b<Outcome: store>(executable: &mut Executable<Outcome>, w: W) {
    let action: &BarAction = executable.next_action(w);
}
".



(** A stream decoder file: the import block and one registration. *)
Definition stream_decoder : string :=
"use futarchy_lifecycle::stream_actions::{
    CreateStreamAction,
    CancelStreamAction,
    WithdrawStreamAction,
    UpdateStreamAction,
    PauseStreamAction,
    ResumeStreamAction,
};

fun register_cancel_stream_decoder(registry: &mut ActionDecoderRegistry, ctx: &mut TxContext) {
    let decoder = CancelStreamActionDecoder { id: object::new(ctx) };
    let type_key = type_name::get<CancelStreamAction>();
    dynamic_object_field::add(registry_id_mut(registry), type_key, decoder);
}
".

(** ** What a pattern can match

    [re_matches r u]: the text [u] is one the pattern [r] can consume.  The
    order in which the engine tries the ways to match plays no part here. *)
Inductive re_matches : re.regex -> string -> Prop :=
| matches_eps : re_matches re.Eps EmptyString
| matches_lit (l : string) : re_matches (re.Lit l) l
| matches_class (p : ascii -> bool) (c : ascii) :
    p c = true -> re_matches (re.Class p) (String c EmptyString)
| matches_cat (r1 r2 : re.regex) (u v : string) :
    re_matches r1 u -> re_matches r2 v -> re_matches (re.Cat r1 r2) (u ++ v)
| matches_alt_l (r1 r2 : re.regex) (u : string) :
    re_matches r1 u -> re_matches (re.Alt r1 r2) u
| matches_alt_r (r1 r2 : re.regex) (u : string) :
    re_matches r2 u -> re_matches (re.Alt r1 r2) u
| matches_star_nil (greedy : bool) (r : re.regex) :
    re_matches (re.Star greedy r) EmptyString
| matches_star_cons (greedy : bool) (r : re.regex) (u v : string) :
    re_matches r u -> re_matches (re.Star greedy r) v ->
    re_matches (re.Star greedy r) (u ++ v)
| matches_group (n : nat) (r : re.regex) (u : string) :
    re_matches r u -> re_matches (re.Group n r) u.

(** A pattern without capturing groups. *)
Fixpoint group_free (r : re.regex) : bool :=
  match r with
  | re.Eps | re.Lit _ | re.Class _ => true
  | re.Cat r1 r2 | re.Alt r1 r2 => group_free r1 && group_free r2
  | re.Star _ r1 => group_free r1
  | re.Group _ _ => false
  end.

(** The character [c] occurs in the text. *)
Fixpoint has_char (c : ascii) (s : string) : bool :=
  match s with
  | EmptyString => false
  | String d s' => Ascii.eqb d c || has_char c s'
  end.

(** No text the pattern matches holds the character [c]. *)
Fixpoint avoids (c : ascii) (r : re.regex) : bool :=
  match r with
  | re.Eps => true
  | re.Lit l => negb (has_char c l)
  | re.Class p => negb (p c)
  | re.Cat r1 r2 | re.Alt r1 r2 => avoids c r1 && avoids c r2
  | re.Star _ r1 | re.Group _ r1 => avoids c r1
  end.

(** Every text the pattern matches holds the text [x]: some literal that
    no match can leave out holds it. *)
Fixpoint requires (x : string) (r : re.regex) : bool :=
  match r with
  | re.Lit l => Py.contains x l
  | re.Cat r1 r2 => requires x r1 || requires x r2
  | re.Alt r1 r2 => requires x r1 && requires x r2
  | re.Group _ r1 => requires x r1
  | re.Eps | re.Class _ | re.Star _ _ => false
  end.

(** Number of times the character [c] occurs in the text. *)
Fixpoint count_char (c : ascii) (s : string) : nat :=
  match s with
  | EmptyString => 0
  | String d s' => (if Ascii.eqb d c then 1 else 0) + count_char c s'
  end.

(** * Properties *)

(** ** Reasoning about a run *)

Ltac tx_unfold :=
  unfold dispatch, do_initiate_dissolution, do_batch_distribute,
    do_finalize_dissolution, do_cancel_dissolution,
    peel_initiate_dissolution, peel_batch_distribute,
    peel_finalize_dissolution, peel_cancel_dissolution,
    secure_next_action, do_secured, is_current_action,
    string_utf8, validate_all_bytes_consumed, assert_action_type,
    current_spec, get_operational_state, set_operational_state,
    set_proposals_enabled_internal, increment_action_idx,
    peel, assert, bind, ret, abort, bcs.new, bcs.into_remainder_bytes in *.

Ltac tx_step :=
  match goal with
  | H : Done _ _ = Done _ _ |- _ => inversion H; subst; clear H
  | H : Aborted _ _ = Aborted _ _ |- _ => inversion H; subst; clear H
  | H : Done _ _ = Aborted _ _ |- _ => discriminate H
  | H : Aborted _ _ = Done _ _ |- _ => discriminate H
  | H : context [match ?x with _ => _ end] |- _ => destruct x eqn:?
  | H : context [if ?x then _ else _] |- _ => destruct x eqn:?
  end.

Ltac tx_cases := tx_unfold; repeat (tx_step; cbn beta iota in *).

(** A dispatch that returns has moved the cursor by one, from an index
    inside the intent, and left the specs alone. *)
Lemma dispatch_done (k : ActionKind) (w w' : World) :
  dispatch k w = Done tt w' ->
  executable w'
  = mkExecutable (action_specs (executable w)) (S (action_idx (executable w)))
  /\ (action_idx (executable w) < List.length (action_specs (executable w)))%nat.
Proof.
  intros H.
  assert (Hn : forall s,
             nth_error (action_specs (executable w)) (action_idx (executable w))
             = Some s ->
             (action_idx (executable w)
              < List.length (action_specs (executable w)))%nat).
  { intros s Hs. apply nth_error_Some. congruence. }
  destruct k; tx_cases; simpl; eauto.
Qed.

(** A dispatch that aborts has not touched the executable. *)
Lemma dispatch_aborted (k : ActionKind) (w w' : World) (code : AbortCode) :
  dispatch k w = Aborted code w' -> executable w' = executable w.
Proof.
  intros H. destruct k; tx_cases; simpl; eauto.
Qed.

Lemma tag_mismatch (a b : string) : a <> b -> String.eqb a b = false.
Proof. intros H. apply String.eqb_neq. exact H. Qed.

Lemma dispatch_all_cons (k : ActionKind) (ks : list ActionKind) (w : World) :
  dispatch_all (k :: ks) w
  = match dispatch k w with
    | Done _ w1 => dispatch_all ks w1
    | Aborted code w1 => Aborted code w1
    end.
Proof. reflexivity. Qed.


(** ** C1 *)

(** C1. Whatever the payload of the spec at the cursor, a dispatch
    function whose expected tag differs from the spec's tag aborts on the tag
    check, with the world as it found it: the abort of
    [assert_action_type] for the dissolution functions, [EWrongAction] for
    the text that replaces a [next_action] line, and that for every
    [from_bytes], which is therefore never given the payload. *)
Theorem C1_wrong_tag_aborts_before_decode :
  forall (w : World) (spec : ActionSpec),
    nth_error (action_specs (executable w)) (action_idx (executable w))
    = Some spec ->
    (forall k : ActionKind,
        action_spec_type spec <> tag_of k ->
        dispatch k w = Aborted EWrongActionType w)
    /\ (forall (Action : Type) (action_type : TypeName)
               (from_bytes : list Z -> option Action),
           action_spec_type spec <> action_type ->
           secure_next_action action_type from_bytes w = Aborted EWrongAction w).
Proof.
  intros w spec Hspec. split.
  - intros k Hk. apply tag_mismatch in Hk.
    destruct k; simpl in Hk; tx_unfold; rewrite Hspec; cbn beta iota;
      rewrite Hk; reflexivity.
  - intros Action action_type from_bytes Hk. apply tag_mismatch in Hk.
    tx_unfold. rewrite Hspec. cbn beta iota. rewrite Hk. reflexivity.
Qed.

Lemma C1_wrong_tag_witness :
  dispatch KInitiateDissolution (world_of [garbage_spec] 0 state_active true)
  = Aborted EWrongActionType (world_of [garbage_spec] 0 state_active true).
Proof.
  apply (proj1 (C1_wrong_tag_aborts_before_decode
                  (world_of [garbage_spec] 0 state_active true)
                  garbage_spec eq_refl)).
  discriminate.
Defined.

(** The errors both tag checks raise are the specification's
    WrongActionType. *)
Lemma wrong_tag_error_class :
  error_class EWrongActionType = WrongActionType
  /\ error_class EWrongAction = WrongActionType.
Proof. split; reflexivity. Qed.

(** ** C3 *)

(** The text that replaces a [next_action] line checks the version after
    the tag and before [from_bytes]: with the right tag and a version other
    than 1 it aborts with [EUnsupportedActionVersion], whatever [from_bytes]
    is. *)
Lemma secure_next_action_checks_version :
  forall (w : World) (spec : ActionSpec) (Action : Type)
         (from_bytes : list Z -> option Action),
    nth_error (action_specs (executable w)) (action_idx (executable w))
    = Some spec ->
    action_spec_version spec <> 1 ->
    secure_next_action (action_spec_type spec) from_bytes w
    = Aborted EUnsupportedActionVersion w.
Proof.
  intros w spec Action from_bytes Hspec Hv.
  tx_unfold. rewrite Hspec. cbn beta iota. rewrite String.eqb_refl.
  cbn beta iota. rewrite Hspec.
  destruct (Z.eqb_spec (action_spec_version spec) 1) as [E|E]; [contradiction|].
  reflexivity.
Qed.

(** C3. [do_finalize_dissolution] never reads the version: a spec of
    schema version 2 is decoded and applied, the state becomes dissolved and
    the cursor advances. *)
Example C3_finalize_accepts_unsupported_version :
  action_spec_version finalize_v2_spec = 2
  /\ dispatch KFinalizeDissolution
       (world_of [finalize_v2_spec] 0 state_dissolving false)
     = Done tt (world_of [finalize_v2_spec] 1 state_dissolved false).
Proof. split; reflexivity. Qed.

(** No dissolution dispatch function depends on the version of the spec it
    reads. *)
Lemma dispatch_ignores_version :
  forall (k : ActionKind) (tag : TypeName) (data : list Z) (v v' : Z)
         (state : OperationalState) (proposals : bool),
    abort_code (dispatch k (world_of [mkActionSpec tag v data] 0 state proposals))
    = abort_code (dispatch k (world_of [mkActionSpec tag v' data] 0 state proposals)).
Proof.
  intros k tag data v v' state proposals.
  destruct k; tx_unfold; simpl;
    repeat match goal with
      | |- context [match ?x with _ => _ end] =>
          lazymatch x with
          | context [match _ with _ => _ end] => fail
          | _ => destruct x; simpl
          end
      end; reflexivity.
Qed.

(** ** C4 *)

(** Where a run of dispatches aborts. *)
Lemma dispatch_all_aborted (ks : list ActionKind) :
  forall (w w' : World) (code : AbortCode),
    dispatch_all ks w = Aborted code w' ->
    exists (i : nat) (k : ActionKind) (wi : World),
      nth_error ks i = Some k
      /\ dispatch_all (firstn i ks) w = Done tt wi
      /\ dispatch k wi = Aborted code w'
      /\ action_idx (executable wi) = (action_idx (executable w) + i)%nat
      /\ executable w' = executable wi.
Proof.
  induction ks as [|k ks IH]; intros w w' code H.
  - discriminate H.
  - rewrite dispatch_all_cons in H.
    destruct (dispatch k w) as [[] w1|c w1] eqn:Hk.
    + destruct (IH _ _ _ H) as (i & k' & wi & Hn & Hpre & Hfail & Hidx & Hex).
      exists (S i), k', wi. simpl firstn. rewrite dispatch_all_cons, Hk.
      repeat split; auto.
      rewrite Hidx. apply dispatch_done in Hk. destruct Hk as [Hk _].
      rewrite Hk. simpl. lia.
    + inversion H; subst. exists 0%nat, k, w. simpl.
      repeat split; auto.
      apply dispatch_aborted in Hk. exact Hk.
Qed.

(** C4. When a run of dispatches aborts, it aborts in the dispatch of some
    index [i]: the dispatches before it returned, the cursor stands where
    they left it, [i] past where the run began, the failing dispatch has not
    moved it, and the transaction commits the world it began with. *)
Theorem C4_failed_dispatch_keeps_cursor_and_world :
  forall (ks : list ActionKind) (w w' : World) (code : AbortCode),
    dispatch_all ks w = Aborted code w' ->
    exists (i : nat) (k : ActionKind) (wi : World),
      nth_error ks i = Some k
      /\ dispatch_all (firstn i ks) w = Done tt wi
      /\ dispatch k wi = Aborted code w'
      /\ action_idx (executable wi) = (action_idx (executable w) + i)%nat
      /\ executable w' = executable wi
      /\ commit w (dispatch_all ks w) = w.
Proof.
  intros ks w w' code H.
  destruct (dispatch_all_aborted ks w w' code H)
    as (i & k & wi & Hn & Hpre & Hfail & Hidx & Hex).
  exists i, k, wi. rewrite H. simpl. repeat split; assumption.
Qed.

Lemma C4_failed_dispatch_witness :
  exists (i : nat) (k : ActionKind) (wi : World),
    nth_error [KInitiateDissolution; KCancelDissolution] i = Some k
    /\ dispatch_all (firstn i [KInitiateDissolution; KCancelDissolution])
         (world_of [initiate_spec; garbage_spec] 0 state_active true)
       = Done tt wi
    /\ dispatch k wi
       = Aborted EMalformedPayload
           (world_of [initiate_spec; garbage_spec] 1 state_dissolving false)
    /\ action_idx (executable wi) = (0 + i)%nat
    /\ executable (world_of [initiate_spec; garbage_spec] 1 state_dissolving false)
       = executable wi
    /\ commit (world_of [initiate_spec; garbage_spec] 0 state_active true)
         (dispatch_all [KInitiateDissolution; KCancelDissolution]
            (world_of [initiate_spec; garbage_spec] 0 state_active true))
       = world_of [initiate_spec; garbage_spec] 0 state_active true.
Proof.
  apply (C4_failed_dispatch_keeps_cursor_and_world
           [KInitiateDissolution; KCancelDissolution]
           (world_of [initiate_spec; garbage_spec] 0 state_active true)
           (world_of [initiate_spec; garbage_spec] 1 state_dissolving false)
           EMalformedPayload).
  vm_compute. reflexivity.
Defined.

(** ** C7 *)

(** C7. [do_initiate_dissolution] writes the config before it checks the
    payload: on an empty reason it aborts with the state already set to
    dissolving and the proposals disabled. *)
Example C7_initiate_applies_before_validating :
  dispatch KInitiateDissolution (world_of [empty_reason_spec] 0 state_active true)
  = Aborted EInvalidRatio (world_of [empty_reason_spec] 0 state_dissolving false).
Proof. vm_compute. reflexivity. Qed.

(** The sibling [do_cancel_dissolution] checks first: on an empty reason it
    aborts with the config as it found it. *)
Example cancel_validates_before_applying :
  dispatch KCancelDissolution
    (world_of [mkActionSpec CancelDissolution 1 [0]] 0 state_dissolving false)
  = Aborted EInvalidRatio
      (world_of [mkActionSpec CancelDissolution 1 [0]] 0 state_dissolving false).
Proof. vm_compute. reflexivity. Qed.

(** The scenario of the specification: the dispatch returns, the state is
    dissolving and the executable is exhausted. *)
Example initiate_dissolution_scenario :
  dispatch_all [KInitiateDissolution] (world_of [initiate_spec] 0 state_active true)
  = Done tt (world_of [initiate_spec] 1 state_dissolving false).
Proof. vm_compute. reflexivity. Qed.

(** ** The peel functions read a prefix *)

Section PeelAppend.

Variable extra : list Z.











End PeelAppend.



(** ** C2 *)



(** ** Serialisation read back *)

Lemma land_127_small (n : Z) : 0 <= n < 128 -> Z.land n 127 = n.
Proof.
  intros H. change 127 with (Z.ones 7). rewrite Z.land_ones by lia.
  apply Z.mod_small. simpl. lia.
Qed.

Lemma land_128_small (n : Z) : 0 <= n < 128 -> Z.land n 128 = 0.
Proof.
  intros H. apply Z.bits_inj'. intros i Hi.
  rewrite Z.land_spec, Z.bits_0.
  destruct (Z.eq_dec i 7) as [->|Hne].
  - replace (Z.testbit n 7) with false; [reflexivity|].
    symmetry. apply Z.bits_above_log2; [lia|].
    destruct (Z.eq_dec n 0) as [->|]; [simpl; lia|].
    apply Z.log2_lt_pow2; simpl; lia.
  - change 128 with (2 ^ 7). rewrite Z.pow2_bits_false by lia.
    apply andb_false_r.
Qed.

Lemma continuation_byte_low (n : Z) :
  Z.land (Z.lor (Z.land n 127) 128) 127 = Z.land n 127.
Proof.
  apply Z.bits_inj'. intros i Hi.
  rewrite !Z.land_spec, Z.lor_spec, Z.land_spec.
  change 127 with (Z.ones 7). change 128 with (2 ^ 7).
  destruct (Z.ltb_spec i 7).
  - rewrite Z.ones_spec_low by lia. rewrite Z.pow2_bits_false by lia.
    rewrite !andb_true_r, orb_false_r. reflexivity.
  - rewrite Z.ones_spec_high by lia. rewrite !andb_false_r. reflexivity.
Qed.

Lemma continuation_byte_high (n : Z) :
  (Z.land (Z.lor (Z.land n 127) 128) 128 =? 0) = false.
Proof.
  apply Z.eqb_neq. intros H.
  assert (Hb : Z.testbit (Z.land (Z.lor (Z.land n 127) 128) 128) 7 = true).
  { rewrite Z.land_spec, Z.lor_spec. change 128 with (2 ^ 7).
    rewrite Z.pow2_bits_true by lia. rewrite orb_true_r. reflexivity. }
  rewrite H in Hb. rewrite Z.bits_0 in Hb. discriminate.
Qed.

Lemma split_low_seven (n : Z) :
  Z.lor (Z.land n 127) (Z.shiftl (Z.shiftr n 7) 7) = n.
Proof.
  apply Z.bits_inj'. intros i Hi.
  rewrite Z.lor_spec, Z.land_spec. change 127 with (Z.ones 7).
  destruct (Z.ltb_spec i 7).
  - rewrite Z.ones_spec_low by lia. rewrite Z.shiftl_spec_low by lia.
    rewrite andb_true_r, orb_false_r. reflexivity.
  - rewrite Z.ones_spec_high by lia. rewrite Z.shiftl_spec by lia.
    rewrite Z.shiftr_spec by lia. rewrite andb_false_r. simpl.
    f_equal. lia.
Qed.

Lemma peel_vec_length_loop_uleb128 (rounds : nat) :
  forall (n total shift : Z) (rest : list Z),
    0 <= shift ->
    0 <= n < 2 ^ (7 * Z.of_nat rounds) ->
    (0 < rounds)%nat ->
    bcs.peel_vec_length_loop rounds total shift (bcs.uleb128 rounds n ++ rest)
    = Some (Z.lor total (Z.shiftl n shift), rest).
Proof.
  induction rounds as [|rounds IH]; intros n total shift rest Hshift Hn Hpos.
  - lia.
  - simpl bcs.uleb128. destruct (Z.ltb_spec n 128) as [Hsmall|Hbig].
    + simpl. rewrite land_127_small by lia. rewrite land_128_small by lia.
      reflexivity.
    + assert (Hr : (0 < rounds)%nat).
      { destruct rounds; [|lia]. simpl in Hn. lia. }
      simpl. rewrite continuation_byte_high, continuation_byte_low.
      rewrite IH; [| lia | | exact Hr].
      * f_equal. f_equal. rewrite <- Z.lor_assoc. f_equal.
        replace (shift + 7) with (7 + shift) by lia.
        rewrite <- (Z.shiftl_shiftl _ 7 shift) by lia.
        rewrite <- Z.shiftl_lor. rewrite split_low_seven. reflexivity.
      * rewrite Z.shiftr_div_pow2 by lia. split.
        -- apply Z.div_pos; lia.
        -- apply Z.div_lt_upper_bound; [lia|].
           rewrite <- Z.pow_add_r by lia.
           replace (7 + 7 * Z.of_nat rounds) with (7 * Z.of_nat (S rounds)) by lia.
           lia.
Qed.

Lemma peel_vec_length_uleb128 (n : Z) (rest : list Z) :
  0 <= n < 2 ^ 35 ->
  bcs.peel_vec_length (bcs.uleb128 5 n ++ rest) = Some (n, rest).
Proof.
  intros H. unfold bcs.peel_vec_length.
  rewrite peel_vec_length_loop_uleb128; [| lia | simpl; lia | lia].
  rewrite Z.shiftl_0_r. reflexivity.
Qed.

Lemma peel_bytes_exact (v rest : list Z) :
  bcs.peel_bytes (List.length v) (v ++ rest) = Some (v, rest).
Proof.
  induction v as [|b v IH]; simpl; [reflexivity|]. rewrite IH. reflexivity.
Qed.

Lemma peel_vec_u8_to_bytes (v rest : list Z) :
  Z.of_nat (List.length v) < 2 ^ 31 ->
  bcs.peel_vec_u8 (bcs.vec_u8_to_bytes v ++ rest) = Some (v, rest).
Proof.
  intros H. unfold bcs.peel_vec_u8, bcs.vec_u8_to_bytes.
  rewrite <- app_assoc. rewrite peel_vec_length_uleb128 by lia.
  rewrite Nat2Z.id. apply peel_bytes_exact.
Qed.

Lemma peel_le_le_bytes (n : nat) :
  forall (i value v : Z) (rest : list Z),
    0 <= i -> 0 <= v ->
    bcs.peel_le n i value (bcs.le_bytes n v ++ rest)
    = Some (value + Z.shiftl (v mod 2 ^ (8 * Z.of_nat n)) i, rest).
Proof.
  induction n as [|n IH]; intros i value v rest Hi Hv.
  - simpl. rewrite Z.mod_1_r. rewrite Z.shiftl_0_l, Z.add_0_r. reflexivity.
  - simpl bcs.le_bytes. simpl app. simpl bcs.peel_le.
    rewrite IH; [| lia | apply Z.div_pos; lia].
    f_equal. f_equal. rewrite <- Z.add_assoc. f_equal.
    rewrite !Z.shiftl_mul_pow2 by lia.
    replace (8 * Z.of_nat (S n)) with (8 + 8 * Z.of_nat n) by lia.
    rewrite (Z.pow_add_r 2 8 (8 * Z.of_nat n)) by lia.
    rewrite (Z.pow_add_r 2 i 8) by lia. change (2 ^ 8) with 256.
    rewrite (Z.rem_mul_r v 256 (2 ^ (8 * Z.of_nat n))) by lia.
    ring.
Qed.

Lemma peel_u64_to_bytes (v : Z) (rest : list Z) :
  0 <= v < 2 ^ 64 ->
  bcs.peel_u64 (bcs.u64_to_bytes v ++ rest) = Some (v, rest).
Proof.
  intros H. unfold bcs.peel_u64, bcs.u64_to_bytes.
  rewrite peel_le_le_bytes by lia.
  rewrite Z.shiftl_0_r. change (8 * Z.of_nat 8) with 64.
  rewrite Z.mod_small by lia. reflexivity.
Qed.

(** The deserialization block of [do_initiate_dissolution] reads the bytes
    of a struct back. *)
Lemma peel_initiate_dissolution_to_bytes (action : InitiateDissolutionAction)
    (w : World) :
  Z.of_nat (List.length (reason action)) < 2 ^ 31 ->
  0 <= final_operations_deadline action < 2 ^ 64 ->
  peel_initiate_dissolution (to_bytes action) w
  = Done (reason action, distribution_method action,
          burn_unsold_tokens action, final_operations_deadline action) w.
Proof.
  intros Hlen Hdeadline.
  unfold peel_initiate_dissolution, to_bytes, peel, bind, ret, bcs.new.
  rewrite peel_vec_u8_to_bytes by exact Hlen. cbn beta iota.
  replace (bcs.u64_to_bytes (final_operations_deadline action))
    with (bcs.u64_to_bytes (final_operations_deadline action) ++ [])
    by apply app_nil_r.
  destruct (burn_unsold_tokens action);
    cbn -[bcs.u64_to_bytes bcs.peel_u64];
    rewrite peel_u64_to_bytes by exact Hdeadline; reflexivity.
Qed.

(** What the constructor returns is read back. *)
Lemma new_initiate_bytes_read_back
    (reason : list Z) (distribution_method : Z) (burn_unsold_tokens : bool)
    (final_operations_deadline : Z) (bytes : list Z) (w : World) :
  Z.of_nat (List.length reason) < 2 ^ 31 ->
  0 <= final_operations_deadline < 2 ^ 64 ->
  new_initiate_dissolution_action reason distribution_method
    burn_unsold_tokens final_operations_deadline = inr bytes ->
  peel_initiate_dissolution bytes w
  = Done (reason, distribution_method, burn_unsold_tokens,
          final_operations_deadline) w.
Proof.
  intros Hlen Hdeadline Hnew.
  unfold new_initiate_dissolution_action in Hnew.
  destruct (negb (distribution_method <=? 2)); [discriminate|].
  destruct (negb (0 <? Z.of_nat (List.length reason))); [discriminate|].
  inversion Hnew; subst bytes.
  apply (peel_initiate_dissolution_to_bytes
           (mkInitiateDissolutionAction reason distribution_method
              burn_unsold_tokens final_operations_deadline) w);
    assumption.
Qed.

(** ** C8 *)

(** C8. For parameters of their Move types that the constructor accepts,
    the deserialization block of [do_initiate_dissolution] reads the bytes
    the constructor returned back to the same four values, and leaves no
    byte. *)
Theorem C8_decode_of_encode_is_identity :
  forall (reason : list Z) (distribution_method : Z) (burn_unsold_tokens : bool)
         (final_operations_deadline : Z) (bytes : list Z) (w : World),
    Z.of_nat (List.length reason) < 2 ^ 31 ->
    0 <= final_operations_deadline < 2 ^ 64 ->
    new_initiate_dissolution_action reason distribution_method
      burn_unsold_tokens final_operations_deadline = inr bytes ->
    peel_initiate_dissolution bytes w
    = Done (reason, distribution_method, burn_unsold_tokens,
            final_operations_deadline) w.
Proof.
  intros reason0 method burn deadline bytes w. apply new_initiate_bytes_read_back.
Qed.

Lemma C8_round_trip_witness :
  peel_initiate_dissolution initiate_payload
    (world_of [initiate_spec] 0 state_active true)
  = Done (wind_down, 1, false, 1000) (world_of [initiate_spec] 0 state_active true).
Proof.
  apply (C8_decode_of_encode_is_identity wind_down 1 false 1000 initiate_payload
           (world_of [initiate_spec] 0 state_active true)).
  - vm_compute. reflexivity.
  - lia.
  - reflexivity.
Defined.

(** ** C9 *)

(** C9. The constructor accepts a deadline of 0, which the dispatch of the
    bytes it returns refuses with [EInvalidThreshold]: the check of the
    deadline is made at dispatch only. *)
Example C9_constructor_accepts_what_dispatch_refuses :
  new_initiate_dissolution_action wind_down 1 false 0
  = inr (to_bytes (mkInitiateDissolutionAction wind_down 1 false 0))
  /\ abort_code
       (dispatch KInitiateDissolution
          (world_of
             [mkActionSpec InitiateDissolution 1
                (to_bytes (mkInitiateDissolutionAction wind_down 1 false 0))]
             0 state_active true))
     = Some EInvalidThreshold.
Proof. split; vm_compute; reflexivity. Qed.

(** The constructor aborts exactly when the method is above 2 or the reason
    is empty, and otherwise returns the bytes of the struct. *)
Lemma new_initiate_dissolution_action_spec
    (reason : list Z) (distribution_method : Z) (burn_unsold_tokens : bool)
    (final_operations_deadline : Z) :
  new_initiate_dissolution_action reason distribution_method
    burn_unsold_tokens final_operations_deadline
  = if (distribution_method <=? 2) && negb (Nat.eqb (List.length reason) 0)
    then inr (to_bytes (mkInitiateDissolutionAction reason distribution_method
                          burn_unsold_tokens final_operations_deadline))
    else inl EInvalidRatio.
Proof.
  unfold new_initiate_dissolution_action.
  destruct (distribution_method <=? 2); simpl; [|reflexivity].
  destruct reason; reflexivity.
Qed.

(** What the constructor accepts with a positive deadline, the dispatch
    accepts: it returns with the state dissolving, the proposals disabled and
    the cursor one further. *)
Lemma constructed_action_dispatches
    (reason : list Z) (distribution_method : Z) (burn_unsold_tokens : bool)
    (final_operations_deadline : Z) (bytes : list Z)
    (state : OperationalState) (proposals : bool) :
  Z.of_nat (List.length reason) < 2 ^ 31 ->
  0 < final_operations_deadline < 2 ^ 64 ->
  new_initiate_dissolution_action reason distribution_method
    burn_unsold_tokens final_operations_deadline = inr bytes ->
  dispatch KInitiateDissolution
    (world_of [mkActionSpec InitiateDissolution 1 bytes] 0 state proposals)
  = Done tt (world_of [mkActionSpec InitiateDissolution 1 bytes] 1
               state_dissolving false).
Proof.
  intros Hlen Hdeadline Hnew.
  pose proof Hnew as Hspec. rewrite new_initiate_dissolution_action_spec in Hspec.
  destruct (distribution_method <=? 2) eqn:Hm; [|discriminate].
  destruct reason as [|b reason]; [discriminate|]. clear Hspec.
  unfold dispatch, do_initiate_dissolution, current_spec, assert_action_type,
    assert, bind, ret. simpl nth_error. cbn beta iota.
  simpl action_spec_type. rewrite String.eqb_refl. cbn beta iota.
  simpl action_spec_data.
  rewrite (new_initiate_bytes_read_back _ _ _ _ _ _ Hlen (conj (Z.lt_le_incl _ _ (proj1 Hdeadline)) (proj2 Hdeadline)) Hnew).
  cbn beta iota. unfold set_operational_state, set_proposals_enabled_internal,
    increment_action_idx, world_of. cbn beta iota.
  replace (0 <? Z.of_nat (List.length (b :: reason))) with true
    by (symmetry; apply Z.ltb_lt; simpl List.length; lia).
  rewrite Hm.
  replace (0 <? final_operations_deadline) with true
    by (symmetry; apply Z.ltb_lt; lia).
  reflexivity.
Qed.

(** The P2 step of fix_all_issues.py changes the declared result of the
    constructor's text and nothing else: its pattern for the serialisation
    lines does not match the line that destroys the struct. *)
Example fix_p2_changes_the_signature_only :
  fix_all_issues.fix_p2_dissolution fix_financial_actions.new_initiate_replacement
  = Py.replace fix_financial_actions.new_initiate_replacement
      "): vector<u8> {" "): InitiateDissolutionAction {".
Proof. vm_compute. reflexivity. Qed.

(** ** C5 *)

Lemma prefix_app_l (x t b : string) :
  String.prefix x t = true -> String.prefix x (t ++ b) = true.
Proof.
  revert t. induction x as [|c x IH]; intros t H.
  - destruct (t ++ b)%string; reflexivity.
  - destruct t as [|d t]; [discriminate|]. simpl in *.
    destruct (ascii_dec c d); [apply IH; exact H|discriminate].
Qed.

Lemma find_from_app_l (x b : string) :
  forall (t : string) (i : nat),
    Py.find_from x t i <> None -> Py.find_from x (t ++ b) i <> None.
Proof.
  induction t as [|d t IH]; intros i H.
  - destruct x as [|c x]; [|simpl in H; contradiction].
    destruct b; simpl; discriminate.
  - cbn -[String.prefix] in *.
    destruct (String.prefix x (String d t)) eqn:E.
    + pose proof (prefix_app_l x (String d t) b E) as E'.
      cbn -[String.prefix] in E'. rewrite E'. discriminate.
    + destruct (String.prefix x (String d (t ++ b))); [discriminate|].
      apply IH. exact H.
Qed.

Lemma find_from_shift (x t : string) :
  forall i j : nat, Py.find_from x t i <> None -> Py.find_from x t j <> None.
Proof.
  induction t as [|d t IH]; intros i j H.
  - destruct x; [discriminate|simpl in H; contradiction].
  - cbn -[String.prefix] in *.
    destruct (String.prefix x (String d t)); [discriminate|].
    apply (IH (S i)). exact H.
Qed.

Lemma find_from_app_r (x t : string) :
  forall (a : string) (i : nat),
    Py.find_from x t 0 <> None -> Py.find_from x (a ++ t) i <> None.
Proof.
  induction a as [|d a IH]; intros i H.
  - simpl. apply (find_from_shift x t 0%nat). exact H.
  - cbn -[String.prefix].
    destruct (String.prefix x (String d (a ++ t))); [discriminate|].
    apply IH. exact H.
Qed.

(** A text that occurs in [t] occurs in [a ++ t ++ b]. *)
Lemma contains_app (x a t b : string) :
  Py.contains x t = true -> Py.contains x (a ++ t ++ b) = true.
Proof.
  unfold Py.contains. intros H.
  assert (Ht : Py.find_from x t 0 <> None).
  { destruct (Py.find_from x t 0); [discriminate|discriminate]. }
  pose proof (find_from_app_r x (t ++ b) a 0%nat (find_from_app_l x b t 0%nat Ht)) as H'.
  destruct (Py.find_from x (a ++ t ++ b) 0); [reflexivity|contradiction].
Qed.




(** ** C6 *)

(** C6. After [fix_stream_decoder] and then the stream half of
    [fix_p1_decoder_registrations], the decoder of [CancelStreamAction] is
    still registered under the placeholder type: the second script looks for
    the registration followed by a semicolon, which the first did not
    write. *)
Example C6_stream_decoder_stays_on_placeholder_type :
  fix_all_issues.fix_p1_stream_decoder
    (fix_decoder_issues.fix_stream_decoder stream_decoder)
  = Py.replace stream_decoder
      "type_name::get<CancelStreamAction>()"
      "type_name::with_defining_ids<CancelStreamActionDecoder>() // TODO: Fix"
  /\ Py.contains "type_name::with_defining_ids<CancelStreamAction>()"
       (fix_all_issues.fix_p1_stream_decoder
          (fix_decoder_issues.fix_stream_decoder stream_decoder)) = false.
Proof. split; vm_compute; reflexivity. Qed.

(** ** C10 *)

(** C10. On a file with two vulnerable functions, the first run of
    [process_file] of fix_action_security.py rewrites the first function
    only and saves; the second run finds the other [next_action] line,
    rewrites again and returns [True]; a third run changes nothing. *)
Example C10_second_run_rewrites_again :
  fst (fix_action_security.process_file two_functions) = true
  /\ Py.contains "executable.next_action"
       (snd (fix_action_security.process_file two_functions)) = true
  /\ fst (fix_action_security.process_file
            (snd (fix_action_security.process_file two_functions))) = true
  /\ String.eqb
       (snd (fix_action_security.process_file
               (snd (fix_action_security.process_file two_functions))))
       (snd (fix_action_security.process_file two_functions)) = false
  /\ fst (fix_action_security.process_file
            (snd (fix_action_security.process_file
                    (snd (fix_action_security.process_file two_functions)))))
     = false.
Proof. repeat split; vm_compute; reflexivity. Qed.

(** On the same file [process_file] of fix_all_actions.py rewrites both
    functions in its first run, and its second run returns [False]. *)
Example fix_all_actions_second_run_is_idle :
  fst (fix_all_actions.process_file two_functions) = true
  /\ Py.contains "next_action" (snd (fix_all_actions.process_file two_functions))
     = false
  /\ fix_all_actions.process_file (snd (fix_all_actions.process_file two_functions))
     = (false, snd (fix_all_actions.process_file two_functions)).
Proof. repeat split; vm_compute; reflexivity. Qed.

(** ** Witnesses of the lemmas above *)

Lemma secure_next_action_version_witness :
  secure_next_action FinalizeDissolution (fun _ : list Z => Some tt)
    (world_of [finalize_v2_spec] 0 state_dissolving false)
  = Aborted EUnsupportedActionVersion
      (world_of [finalize_v2_spec] 0 state_dissolving false).
Proof.
  apply (secure_next_action_checks_version
           (world_of [finalize_v2_spec] 0 state_dissolving false)
           finalize_v2_spec unit (fun _ : list Z => Some tt)).
  - reflexivity.
  - discriminate.
Defined.

Lemma constructed_action_witness :
  dispatch KInitiateDissolution (world_of [initiate_spec] 0 state_active true)
  = Done tt (world_of [initiate_spec] 1 state_dissolving false).
Proof.
  apply (constructed_action_dispatches wind_down 1 false 1000 initiate_payload
           state_active true).
  - vm_compute. reflexivity.
  - lia.
  - reflexivity.
Defined.



(** ** The dissolution life cycle *)

(** [do_batch_distribute], [do_finalize_dissolution] and
    [do_cancel_dissolution] make all their checks before their first write:
    when one of them aborts, the world is the one it was given. *)
Theorem siblings_abort_without_writing :
  forall (k : ActionKind) (w w' : World) (code : AbortCode),
    k <> KInitiateDissolution ->
    dispatch k w = Aborted code w' ->
    w' = w.
Proof.
  intros k w w' code Hk H.
  destruct k; [contradiction| | |]; tx_cases; reflexivity.
Qed.

Lemma siblings_abort_witness :
  world_of [mkActionSpec CancelDissolution 1 [0]] 0 state_dissolving false
  = world_of [mkActionSpec CancelDissolution 1 [0]] 0 state_dissolving false.
Proof.
  apply (siblings_abort_without_writing KCancelDissolution
           (world_of [mkActionSpec CancelDissolution 1 [0]] 0 state_dissolving false)
           (world_of [mkActionSpec CancelDissolution 1 [0]] 0 state_dissolving false)
           EInvalidRatio).
  - discriminate.
  - vm_compute. reflexivity.
Defined.

Lemma OperationalState_eqb_eq (a b : OperationalState) :
  OperationalState_eqb a b = true -> a = b.
Proof. destruct a, b; simpl; intros H; try reflexivity; discriminate. Qed.

(** The three of them return only from the dissolving state, and what they
    leave in the config is fixed: [do_batch_distribute] leaves it as it was,
    [do_finalize_dissolution] sets the state to dissolved and keeps the
    proposals flag, [do_cancel_dissolution] sets the state to active and
    enables the proposals. *)
Theorem siblings_return_from_dissolving_only :
  forall (k : ActionKind) (w w' : World),
    k <> KInitiateDissolution ->
    dispatch k w = Done tt w' ->
    operational_state (account w) = state_dissolving
    /\ account w'
       = match k with
         | KFinalizeDissolution =>
             mkFutarchyConfig state_dissolved (proposals_enabled (account w))
         | KCancelDissolution => mkFutarchyConfig state_active true
         | _ => account w
         end.
Proof.
  intros k w w' Hk H.
  destruct k; [contradiction| | |]; tx_cases; simpl;
    match goal with
    | E : OperationalState_eqb _ _ = true |- _ =>
        apply OperationalState_eqb_eq in E; rewrite E
    end; split; reflexivity.
Qed.

Lemma siblings_return_witness :
  operational_state
    (account (world_of [finalize_v2_spec] 0 state_dissolving false))
  = state_dissolving
  /\ account (world_of [finalize_v2_spec] 1 state_dissolved false)
     = mkFutarchyConfig state_dissolved
         (proposals_enabled
            (account (world_of [finalize_v2_spec] 0 state_dissolving false))).
Proof.
  apply (siblings_return_from_dissolving_only KFinalizeDissolution
           (world_of [finalize_v2_spec] 0 state_dissolving false)
           (world_of [finalize_v2_spec] 1 state_dissolved false)).
  - discriminate.
  - vm_compute. reflexivity.
Defined.

(** [do_initiate_dissolution] has no precondition on the state: whether it
    returns, and with which code it aborts, is the same from every config,
    and when it returns the state is dissolving and the proposals are
    disabled.  A dissolved account can so be put back into dissolution. *)
Theorem initiate_dissolution_ignores_the_state :
  forall (exec : Executable) (config config' : FutarchyConfig),
    abort_code (dispatch KInitiateDissolution (mkWorld exec config))
    = abort_code (dispatch KInitiateDissolution (mkWorld exec config'))
    /\ (abort_code (dispatch KInitiateDissolution (mkWorld exec config)) = None ->
        account (reached (dispatch KInitiateDissolution (mkWorld exec config)))
        = mkFutarchyConfig state_dissolving false).
Proof.
  intros exec config config'.
  unfold dispatch. tx_unfold. simpl.
  repeat match goal with
    | |- context [match ?x with _ => _ end] =>
        lazymatch x with
        | context [match _ with _ => _ end] => fail
        | _ => destruct x; simpl
        end
    end; split; try reflexivity; intros; try discriminate; reflexivity.
Qed.

(** From the dissolved state none of the three can return: a finalized
    dissolution can be neither cancelled, nor finalized again, nor
    distributed. *)
Theorem dissolved_is_final_for_siblings :
  forall (k : ActionKind) (w : World),
    k <> KInitiateDissolution ->
    operational_state (account w) = state_dissolved ->
    exists code : AbortCode, dispatch k w = Aborted code w.
Proof.
  intros k w Hk Hstate.
  destruct (dispatch k w) as [[] w'|code w'] eqn:H.
  - exfalso. destruct k; [contradiction| | |]; tx_cases;
      match goal with
      | E : OperationalState_eqb _ _ = true |- _ =>
          rewrite Hstate in E; discriminate E
      end.
  - exists code. f_equal.
    destruct k; [contradiction| | |]; tx_cases; reflexivity.
Qed.

Lemma dissolved_is_final_witness :
  exists code : AbortCode,
    dispatch KCancelDissolution
      (world_of [mkActionSpec CancelDissolution 1 [1; 120]] 0 state_dissolved false)
    = Aborted code
        (world_of [mkActionSpec CancelDissolution 1 [1; 120]] 0 state_dissolved false).
Proof.
  apply (dissolved_is_final_for_siblings KCancelDissolution
           (world_of [mkActionSpec CancelDissolution 1 [1; 120]] 0
              state_dissolved false)).
  - discriminate.
  - reflexivity.
Defined.

(** A dissolution that is initiated and then cancelled leaves the account
    active with the proposals enabled, whatever the proposals flag was
    before, and the cursor two further. *)
Theorem initiate_then_cancel :
  forall w w1 w2 : World,
    dispatch KInitiateDissolution w = Done tt w1 ->
    dispatch KCancelDissolution w1 = Done tt w2 ->
    account w2 = mkFutarchyConfig state_active true
    /\ action_idx (executable w2) = S (S (action_idx (executable w)))
    /\ action_specs (executable w2) = action_specs (executable w).
Proof.
  intros w w1 w2 H1 H2.
  pose proof (dispatch_done _ _ _ H1) as [E1 _].
  pose proof (dispatch_done _ _ _ H2) as [E2 _].
  rewrite E1 in E2. simpl in E2. rewrite E2. simpl.
  repeat split; try reflexivity.
  clear H1 E1 E2. tx_cases; reflexivity.
Qed.

Lemma initiate_then_cancel_witness :
  account (world_of [initiate_spec; mkActionSpec CancelDissolution 1 [1; 120]] 2
             state_active true)
  = mkFutarchyConfig state_active true
  /\ action_idx
       (executable
          (world_of [initiate_spec; mkActionSpec CancelDissolution 1 [1; 120]] 2
             state_active true))
     = S (S (action_idx
               (executable
                  (world_of [initiate_spec; mkActionSpec CancelDissolution 1 [1; 120]]
                     0 state_active false))))
  /\ action_specs
       (executable
          (world_of [initiate_spec; mkActionSpec CancelDissolution 1 [1; 120]] 2
             state_active true))
     = action_specs
         (executable
            (world_of [initiate_spec; mkActionSpec CancelDissolution 1 [1; 120]] 0
               state_active false)).
Proof.
  apply (initiate_then_cancel
           (world_of [initiate_spec; mkActionSpec CancelDissolution 1 [1; 120]] 0
              state_active false)
           (world_of [initiate_spec; mkActionSpec CancelDissolution 1 [1; 120]] 1
              state_dissolving false)
           (world_of [initiate_spec; mkActionSpec CancelDissolution 1 [1; 120]] 2
              state_active true)).
  - vm_compute. reflexivity.
  - vm_compute. reflexivity.
Defined.

(** Past the end of the intent every dispatch function aborts on the borrow
    of the spec, with the world as it was. *)
Theorem exhausted_executable_aborts :
  forall (k : ActionKind) (w : World),
    (List.length (action_specs (executable w)) <= action_idx (executable w))%nat ->
    dispatch k w = Aborted EIndexOutOfBounds w.
Proof.
  intros k w H. apply nth_error_None in H.
  destruct k; tx_unfold; rewrite H; reflexivity.
Qed.

Lemma exhausted_executable_witness :
  dispatch KFinalizeDissolution (world_of [finalize_v2_spec] 1 state_dissolved false)
  = Aborted EIndexOutOfBounds (world_of [finalize_v2_spec] 1 state_dissolved false).
Proof.
  apply (exhausted_executable_aborts KFinalizeDissolution
           (world_of [finalize_v2_spec] 1 state_dissolved false)).
  simpl. lia.
Defined.

(** ** The text that replaces a next_action line *)

(** It writes nothing, and with the expected tag and version 1 it returns
    what [from_bytes] makes of the whole payload, or aborts with
    [EMalformedPayload] when [from_bytes] aborts. *)
Theorem secure_next_action_returns_decoded :
  forall (w : World) (spec : ActionSpec) (Action : Type)
         (from_bytes : list Z -> option Action),
    nth_error (action_specs (executable w)) (action_idx (executable w))
    = Some spec ->
    action_spec_version spec = 1 ->
    secure_next_action (action_spec_type spec) from_bytes w
    = match from_bytes (action_spec_data spec) with
      | Some action => Done action w
      | None => Aborted EMalformedPayload w
      end
    /\ (forall (action_type : TypeName),
           reached (secure_next_action action_type from_bytes w) = w).
Proof.
  intros w spec Action from_bytes Hspec Hv. split.
  - tx_unfold. rewrite Hspec. cbn -[Z.eqb]. rewrite String.eqb_refl.
    cbn -[Z.eqb]. rewrite Hspec, Hv. cbn.
    destruct (from_bytes (action_spec_data spec)); reflexivity.
  - intros action_type. tx_unfold. rewrite Hspec. cbn -[Z.eqb].
    destruct (String.eqb (action_spec_type spec) action_type); cbn -[Z.eqb];
      [|reflexivity].
    rewrite Hspec, Hv. cbn.
    destruct (from_bytes (action_spec_data spec)); reflexivity.
Qed.

Lemma secure_next_action_witness :
  secure_next_action FinalizeDissolution (fun data : list Z => Some (List.length data))
    (world_of [mkActionSpec FinalizeDissolution 1 [7; 8]] 0 state_active true)
  = Done 2%nat (world_of [mkActionSpec FinalizeDissolution 1 [7; 8]] 0 state_active true).
Proof.
  apply (proj1 (secure_next_action_returns_decoded
                  (world_of [mkActionSpec FinalizeDissolution 1 [7; 8]] 0
                     state_active true)
                  (mkActionSpec FinalizeDissolution 1 [7; 8]) nat
                  (fun data : list Z => Some (List.length data))
                  eq_refl eq_refl)).
Defined.

(** ** The payload of a finalize action *)

Lemma peel_bytes_spec (n : nat) :
  forall (r r' : bcs.BCS) (v : list Z),
    bcs.peel_bytes n r = Some (v, r') <-> (r = v ++ r' /\ List.length v = n).
Proof.
  induction n as [|n IH]; intros r r' v; simpl; split.
  - intros H. inversion H; subst. split; reflexivity.
  - intros [H Hlen]. destruct v; [|discriminate]. subst. reflexivity.
  - destruct r as [|b r]; [discriminate|]. simpl.
    destruct (bcs.peel_bytes n r) as [[bs rest]|] eqn:E; [|discriminate].
    intros H. inversion H; subst. apply IH in E. destruct E as [E Hlen].
    subst. split; simpl; congruence.
  - intros [H Hlen]. destruct v as [|b v]; [discriminate|]. subst. simpl.
    injection Hlen as Hlen.
    replace (bcs.peel_bytes n (v ++ r')) with (Some (v, r'));
      [reflexivity|]. symmetry. apply IH. split; [reflexivity|exact Hlen].
Qed.

(** The deserialization block of [do_finalize_dissolution] accepts exactly
    the 32 bytes of an address followed by one byte that is 0 or 1, and
    returns that address and that flag; nothing else decodes, and the block
    never writes. *)
Theorem finalize_payload_shape :
  forall (payload : list Z) (w w' : World) (final_recipient : list Z)
         (destroy_account : bool),
    peel_finalize_dissolution payload w = Done (final_recipient, destroy_account) w'
    <-> (w' = w
         /\ List.length final_recipient = 32%nat
         /\ payload = final_recipient ++ [if destroy_account then 1 else 0]).
Proof.
  intros payload w w' a b. split.
  - unfold peel_finalize_dissolution, peel, bind, ret, abort, bcs.new,
      validate_all_bytes_consumed, assert, bcs.into_remainder_bytes.
    destruct (bcs.peel_address payload) as [[addr r1]|] eqn:Eaddr;
      cbn beta iota; [|discriminate].
    destruct (bcs.peel_bool r1) as [[flag r2]|] eqn:Ebool;
      cbn beta iota; [|discriminate].
    destruct r2 as [|x r2]; cbn beta iota; [|discriminate].
    intros H. inversion H; subst.
    apply peel_bytes_spec in Eaddr. destruct Eaddr as [-> Hlen].
    repeat split; [exact Hlen|]. f_equal.
    unfold bcs.peel_bool, bcs.peel_u8 in Ebool.
    destruct r1 as [|x r1]; [discriminate|].
    destruct (Z.eqb_spec x 0) as [->|].
    + inversion Ebool; subst. reflexivity.
    + destruct (Z.eqb_spec x 1) as [->|]; [|discriminate].
      inversion Ebool; subst. reflexivity.
  - intros (-> & Hlen & ->).
    unfold peel_finalize_dissolution, peel, bind, ret, bcs.new,
      validate_all_bytes_consumed, assert, bcs.peel_address.
    replace (bcs.peel_bytes bcs.address_length (a ++ [if b then 1 else 0]))
      with (Some (a, [if b then 1 else 0]))
      by (symmetry; apply peel_bytes_spec; split; [reflexivity|exact Hlen]).
    destruct b; reflexivity.
Qed.

(** ** A run and the tags of its intent *)

Lemma dispatch_done_tag (k : ActionKind) (w w' : World) :
  dispatch k w = Done tt w' ->
  exists spec : ActionSpec,
    nth_error (action_specs (executable w)) (action_idx (executable w)) = Some spec
    /\ action_spec_type spec = tag_of k.
Proof.
  intros H.
  destruct k; tx_cases;
    match goal with
    | E : String.eqb _ _ = true |- _ => apply String.eqb_eq in E
    end; eexists; split; eauto.
Qed.

(** A run of dissolution dispatch functions that returns has found, at each
    of its steps, the spec of the kind it dispatched: the tags of the
    intent from the cursor on are those of the functions called, in the
    order of the calls. *)
Theorem completed_run_matches_the_intent (ks : list ActionKind) :
  forall w w' : World,
    dispatch_all ks w = Done tt w' ->
    forall (i : nat) (k : ActionKind),
      nth_error ks i = Some k ->
      exists spec : ActionSpec,
        nth_error (action_specs (executable w)) (action_idx (executable w) + i)
        = Some spec
        /\ action_spec_type spec = tag_of k.
Proof.
  induction ks as [|k0 ks IH]; intros w w' H i k Hi.
  - destruct i; discriminate.
  - rewrite dispatch_all_cons in H.
    destruct (dispatch k0 w) as [[] w1|] eqn:Hk; [|discriminate].
    destruct i as [|i].
    + inversion Hi; subst k. rewrite Nat.add_0_r. apply (dispatch_done_tag _ _ _ Hk).
    + apply dispatch_done in Hk. destruct Hk as [Hk _].
      destruct (IH w1 w' H i k Hi) as (spec & Hs & Ht).
      rewrite Hk in Hs. simpl in Hs.
      exists spec. split; [|exact Ht].
      rewrite Nat.add_succ_r. exact Hs.
Qed.

Lemma completed_run_witness :
  exists spec : ActionSpec,
    nth_error [initiate_spec; mkActionSpec CancelDissolution 1 [1; 120]] (0 + 1)
    = Some spec
    /\ action_spec_type spec = CancelDissolution.
Proof.
  apply (completed_run_matches_the_intent
           [KInitiateDissolution; KCancelDissolution]
           (world_of [initiate_spec; mkActionSpec CancelDissolution 1 [1; 120]] 0
              state_active true)
           (world_of [initiate_spec; mkActionSpec CancelDissolution 1 [1; 120]] 2
              state_active true)
           ltac:(vm_compute; reflexivity) 1%nat KCancelDissolution eq_refl).
Defined.

(** * The text rewriting of the scripts *)

Local Open Scope string_scope.

(** ** The engine matches what the pattern allows *)

Lemma strip_prefix_spec (p : string) :
  forall s s' : string, re.strip_prefix p s = Some s' -> s = (p ++ s')%string.
Proof.
  induction p as [|c p IH]; simpl; intros s s' H.
  - inversion H; reflexivity.
  - destruct s as [|d s]; [discriminate|].
    destruct (Ascii.eqb_spec c d) as [->|]; [|discriminate].
    f_equal. apply IH. exact H.
Qed.

Lemma string_app_assoc (a b c : string) :
  ((a ++ b) ++ c = a ++ (b ++ c))%string.
Proof. induction a as [|x a IH]; simpl; [reflexivity|]. rewrite IH. reflexivity. Qed.

Lemma string_app_nil_r (a : string) : (a ++ "" = a)%string.
Proof. induction a as [|x a IH]; simpl; [reflexivity|]. rewrite IH. reflexivity. Qed.

Lemma string_length_app (a b : string) :
  String.length (a ++ b) = (String.length a + String.length b)%nat.
Proof. induction a as [|x a IH]; simpl; [reflexivity|]. rewrite IH. reflexivity. Qed.

(** When the engine succeeds on [r] at index [i] of a text, it has consumed
    a text [u] the pattern can match, and the rest of the match went on
    from the end of [u]; a pattern without groups hands the captures on as
    it got them. *)
Lemma rmatch_sound (R : Type) (r : re.regex) :
  forall (s : string) (i : nat) (caps : re.captures)
         (k : string -> nat -> re.captures -> option R) (x : R),
    re.rmatch r s i caps k = Some x ->
    exists (u s' : string) (caps' : re.captures),
      s = (u ++ s')%string
      /\ re_matches r u
      /\ k s' (i + String.length u)%nat caps' = Some x
      /\ (group_free r = true -> caps' = caps).
Proof.
  induction r as [| l | p | r1 IH1 r2 IH2 | r1 IH1 r2 IH2 | greedy r1 IH1 | n r1 IH1];
    intros s i caps k x H; simpl in H.
  - exists EmptyString, s, caps. simpl. rewrite Nat.add_0_r.
    repeat split; [constructor | exact H].
  - destruct (re.strip_prefix l s) as [s'|] eqn:E; [|discriminate].
    exists l, s', caps. apply strip_prefix_spec in E.
    repeat split; [exact E | constructor | exact H].
  - destruct s as [|c s]; [discriminate|].
    destruct (p c) eqn:E; [|discriminate].
    exists (String c EmptyString), s, caps. simpl.
    replace (i + 1)%nat with (S i) by lia.
    repeat split; [constructor; exact E | exact H].
  - apply IH1 in H. destruct H as (u1 & s1 & caps1 & -> & M1 & H & G1).
    apply IH2 in H. destruct H as (u2 & s2 & caps2 & -> & M2 & H & G2).
    exists (u1 ++ u2)%string, s2, caps2.
    rewrite string_app_assoc, string_length_app, Nat.add_assoc.
    repeat split; [constructor; assumption | exact H |].
    simpl. intros G. apply andb_prop in G. destruct G as [Ga Gb].
    rewrite (G2 Gb). apply G1. exact Ga.
  - destruct (re.rmatch r1 s i caps k) as [y|] eqn:E.
    + inversion H; subst y. apply IH1 in E.
      destruct E as (u & s' & caps' & -> & M & E & G).
      exists u, s', caps'. repeat split; [apply matches_alt_l; exact M | exact E |].
      simpl. intros Gab. apply andb_prop in Gab. apply G. tauto.
    + apply IH2 in H. destruct H as (u & s' & caps' & -> & M & E' & G).
      exists u, s', caps'. repeat split; [apply matches_alt_r; exact M | exact E' |].
      simpl. intros Gab. apply andb_prop in Gab. apply G. tauto.
  - assert (Hrounds : forall (fuel : nat) s i caps,
               (fix rounds (fuel : nat) (s : string) (i : nat)
                  (caps : re.captures) {struct fuel} : option R :=
                  match fuel with
                  | O => k s i caps
                  | S fuel' =>
                      let more (_ : unit) :=
                        re.rmatch r1 s i caps
                          (fun s' i' caps' =>
                             if (i' =? i)%nat then None
                             else rounds fuel' s' i' caps') in
                      if greedy then
                        match more tt with
                        | Some x => Some x
                        | None => k s i caps
                        end
                      else
                        match k s i caps with
                        | Some x => Some x
                        | None => more tt
                        end
                  end) fuel s i caps = Some x ->
               exists (u s' : string) (caps' : re.captures),
                 s = (u ++ s')%string
                 /\ re_matches (re.Star greedy r1) u
                 /\ k s' (i + String.length u)%nat caps' = Some x
                 /\ (group_free (re.Star greedy r1) = true -> caps' = caps)).
    { clear H s i caps.
      induction fuel as [|fuel IHf]; intros s i caps H.
      - exists EmptyString, s, caps. simpl. rewrite Nat.add_0_r.
        repeat split; [apply matches_star_nil | exact H].
      - assert (Hstop : k s i caps = Some x ->
                   exists (u s' : string) (caps' : re.captures),
                     s = (u ++ s')%string
                     /\ re_matches (re.Star greedy r1) u
                     /\ k s' (i + String.length u)%nat caps' = Some x
                     /\ (group_free (re.Star greedy r1) = true -> caps' = caps)).
        { intros Hx. exists EmptyString, s, caps. simpl. rewrite Nat.add_0_r.
          repeat split; [apply matches_star_nil | exact Hx]. }
        assert (Hmore : forall k',
                   re.rmatch r1 s i caps k' = Some x ->
                   (forall s' i' caps', k' s' i' caps' = Some x ->
                      exists (u s'' : string) (caps'' : re.captures),
                        s' = (u ++ s'')%string
                        /\ re_matches (re.Star greedy r1) u
                        /\ k s'' (i' + String.length u)%nat caps'' = Some x
                        /\ (group_free (re.Star greedy r1) = true -> caps'' = caps')) ->
                   exists (u s' : string) (caps' : re.captures),
                     s = (u ++ s')%string
                     /\ re_matches (re.Star greedy r1) u
                     /\ k s' (i + String.length u)%nat caps' = Some x
                     /\ (group_free (re.Star greedy r1) = true -> caps' = caps)).
        { intros k' Hx Hk'. apply IH1 in Hx.
          destruct Hx as (u1 & s1 & caps1 & -> & M1 & Hx & G1).
          apply Hk' in Hx. destruct Hx as (u2 & s2 & caps2 & -> & M2 & Hx & G2).
          exists (u1 ++ u2)%string, s2, caps2.
          rewrite string_app_assoc, string_length_app, Nat.add_assoc.
          repeat split; [apply matches_star_cons; assumption | exact Hx |].
          simpl. intros G. rewrite (G2 G). apply G1. exact G. }
        simpl in H. destruct greedy.
        + match type of H with
          | match ?m with _ => _ end = _ => destruct m as [y|] eqn:E
          end.
          * inversion H; subst y. apply (Hmore _ E).
            intros s' i' caps' Hx. cbv beta in Hx.
            destruct (i' =? i)%nat; [discriminate|]. apply IHf. exact Hx.
          * apply Hstop. exact H.
        + destruct (k s i caps) as [y|] eqn:E.
          * inversion H; subst y. apply Hstop. reflexivity.
          * apply (Hmore _ H).
            intros s' i' caps' Hx. cbv beta in Hx.
            destruct (i' =? i)%nat; [discriminate|]. apply IHf. exact Hx. }
    apply (Hrounds (S (String.length s))). exact H.
  - apply IH1 in H. destruct H as (u & s' & caps' & -> & M & H & G).
    exists u, s', ((n, (i, (i + String.length u)%nat)) :: caps').
    repeat split; [apply matches_group; exact M | exact H |].
    simpl. discriminate.
Qed.

(** A search that succeeds has found its match after some text [a]. *)
Lemma search_from_sound (r : re.regex) :
  forall (s : string) (i : nat) (m : re.Match),
    re.search_from r s i = Some m ->
    exists a t : string,
      s = (a ++ t)%string
      /\ re.match_at r t (i + String.length a)%nat = Some m.
Proof.
  induction s as [|c s IH]; intros i m H; simpl in H.
  - destruct (re.match_at r EmptyString i) eqn:E; [|discriminate].
    inversion H; subst. exists EmptyString, EmptyString. simpl.
    rewrite Nat.add_0_r. split; [reflexivity|exact E].
  - destruct (re.match_at r (String c s) i) eqn:E.
    + inversion H; subst. exists EmptyString, (String c s). simpl.
      rewrite Nat.add_0_r. split; [reflexivity|exact E].
    + apply IH in H. destruct H as (a & t & -> & H).
      exists (String c a), t. simpl.
      replace (i + S (String.length a))%nat with (S i + String.length a)%nat by lia.
      split; [reflexivity|exact H].
Qed.

Lemma match_at_sound (r : re.regex) (t : string) (j : nat) (m : re.Match) :
  re.match_at r t j = Some m ->
  exists u b : string,
    t = (u ++ b)%string /\ re_matches r u
    /\ re.mstart m = j /\ re.mend m = (j + String.length u)%nat.
Proof.
  unfold re.match_at. intros H. apply rmatch_sound in H.
  destruct H as (u & b & caps' & -> & M & H & _).
  inversion H; subst. exists u, b. simpl. repeat split. exact M.
Qed.

(** ** Texts, their parts and what they hold *)

Lemma take_drop (n : nat) : forall s : string, s = (Py.take n s ++ Py.drop n s)%string.
Proof.
  induction n as [|n IH]; intros s; [destruct s; reflexivity|].
  destruct s as [|c s]; [reflexivity|]. simpl. f_equal. apply IH.
Qed.

Lemma take_app_exact (a b : string) : Py.take (String.length a) (a ++ b) = a.
Proof.
  induction a as [|c a IH]; simpl; [destruct b; reflexivity|]. rewrite IH. reflexivity.
Qed.

Lemma drop_app_exact (a b : string) : Py.drop (String.length a) (a ++ b) = b.
Proof. induction a as [|c a IH]; simpl; [destruct b; reflexivity|]. exact IH. Qed.

Lemma slice_app_exact (a u b : string) :
  Py.slice (a ++ u ++ b) (String.length a) (String.length a + String.length u) = u.
Proof.
  unfold Py.slice. rewrite drop_app_exact.
  replace (String.length a + String.length u - String.length a)%nat
    with (String.length u) by lia.
  apply take_app_exact.
Qed.

(** A slice of a text lies between two other parts of it. *)
Lemma slice_between (s : string) (a b : nat) :
  exists p q : string, s = (p ++ Py.slice s a b ++ q)%string.
Proof.
  exists (Py.take a s), (Py.drop (b - a) (Py.drop a s)). unfold Py.slice.
  rewrite <- (take_drop (b - a) (Py.drop a s)). apply take_drop.
Qed.

Lemma contains_slice (x s : string) (a b : nat) :
  Py.contains x (Py.slice s a b) = true -> Py.contains x s = true.
Proof.
  intros H. destruct (slice_between s a b) as (p & q & E).
  rewrite E. apply contains_app. exact H.
Qed.

Lemma contains_app_l (x u v : string) :
  Py.contains x u = true -> Py.contains x (u ++ v) = true.
Proof. intros H. apply (contains_app x EmptyString u v H). Qed.

Lemma contains_app_r (x u v : string) :
  Py.contains x v = true -> Py.contains x (u ++ v) = true.
Proof.
  intros H. pose proof (contains_app x u v EmptyString H) as H'.
  rewrite string_app_nil_r in H'. exact H'.
Qed.

Lemma has_char_app (c : ascii) (u v : string) :
  has_char c (u ++ v) = has_char c u || has_char c v.
Proof.
  induction u as [|d u IH]; simpl; [reflexivity|].
  rewrite IH. apply orb_assoc.
Qed.

Lemma prefix_has_char (c : ascii) :
  forall x s : string,
    String.prefix x s = true -> has_char c x = true -> has_char c s = true.
Proof.
  induction x as [|d x IH]; intros s Hp Hc; [discriminate|].
  destruct s as [|e s]; [discriminate|]. simpl in Hp.
  destruct (ascii_dec d e) as [->|]; [|discriminate].
  simpl in *. destruct (Ascii.eqb e c); [reflexivity|].
  simpl in *. apply (IH s Hp Hc).
Qed.

(** A text that holds [x] holds every character of [x]. *)
Lemma contains_has_char (c : ascii) (x : string) :
  has_char c x = true ->
  forall s : string, Py.contains x s = true -> has_char c s = true.
Proof.
  intros Hc s. unfold Py.contains.
  generalize 0%nat. induction s as [|d s IH]; intros i H.
  - destruct x; [discriminate|simpl in H; discriminate].
  - cbn -[String.prefix] in H.
    destruct (String.prefix x (String d s)) eqn:E.
    + apply (prefix_has_char c x _ E Hc).
    + simpl. rewrite (IH (S i) H). apply orb_true_r.
Qed.

(** ** What a match holds *)

Lemma requires_sound (x : string) (r : re.regex) (u : string) :
  re_matches r u -> requires x r = true -> Py.contains x u = true.
Proof.
  induction 1 as [| l | p c Hp | r1 r2 u v _ IH1 _ IH2 | r1 r2 u _ IH | r1 r2 u _ IH
                  | g r | g r u v _ _ _ _ | n r u _ IH]; simpl; intros Hr;
    try discriminate.
  - exact Hr.
  - apply orb_prop in Hr. destruct Hr as [Hr|Hr].
    + apply contains_app_l. apply IH1. exact Hr.
    + apply contains_app_r. apply IH2. exact Hr.
  - apply andb_prop in Hr. apply IH. tauto.
  - apply andb_prop in Hr. apply IH. tauto.
  - apply IH. exact Hr.
Qed.

Lemma avoids_sound (c : ascii) (r : re.regex) (u : string) :
  re_matches r u -> avoids c r = true -> has_char c u = false.
Proof.
  induction 1 as [| l | p d Hp | r1 r2 u v _ IH1 _ IH2 | r1 r2 u _ IH | r1 r2 u _ IH
                  | g r | g r u v _ IH1 _ IH2 | n r u _ IH]; simpl; intros Hr.
  - reflexivity.
  - apply negb_true_iff. exact Hr.
  - destruct (Ascii.eqb_spec d c) as [->|]; [|reflexivity].
    rewrite Hp in Hr. discriminate.
  - apply andb_prop in Hr. rewrite has_char_app, IH1, IH2; tauto.
  - apply andb_prop in Hr. apply IH. tauto.
  - apply andb_prop in Hr. apply IH. tauto.
  - reflexivity.
  - rewrite has_char_app, IH1, IH2; auto.
  - apply IH. exact Hr.
Qed.

(** The text a search reports, in a text [pre ++ s] searched from the end
    of [pre] on, is one the pattern matches. *)
Lemma search_from_matches (r : re.regex) (pre s : string) (m : re.Match) :
  re.search_from r s (String.length pre) = Some m ->
  exists a u b : string,
    s = (a ++ u ++ b)%string /\ re_matches r u
    /\ re.mstart m = (String.length pre + String.length a)%nat
    /\ re.mend m = (re.mstart m + String.length u)%nat
    /\ re.group0 (pre ++ s) m = u.
Proof.
  intros H. apply search_from_sound in H. destruct H as (a & t & -> & H).
  apply match_at_sound in H. destruct H as (u & b & -> & M & Hs & He).
  exists a, u, b. repeat split; try assumption.
  - rewrite He, Hs. reflexivity.
  - unfold re.group0. rewrite He, Hs, <- string_app_assoc, <- string_length_app.
    apply slice_app_exact.
Qed.

Lemma search_matches (r : re.regex) (s : string) (m : re.Match) :
  re.search r s = Some m ->
  exists a u b : string, s = (a ++ u ++ b)%string /\ re_matches r u.
Proof.
  intros H. destruct (search_from_matches r EmptyString s m H) as (a & u & b & E & M & _).
  exists a, u, b. split; assumption.
Qed.

(** A search for a pattern whose every match holds [x] fails on a text
    without [x]. *)
Lemma search_requires (x : string) (r : re.regex) (s : string) :
  requires x r = true -> Py.contains x s = false -> re.search r s = None.
Proof.
  intros Hr Hc. destruct (re.search r s) as [m|] eqn:E; [|reflexivity].
  destruct (search_matches r s m E) as (a & u & b & -> & M).
  rewrite (contains_app x a u b (requires_sound x r u M Hr)) in Hc. discriminate.
Qed.

(** ** fix_action_security.py: the call written with [::] *)

Lemma fix_do_function_needs_the_method_call (content : string) (m : re.Match) :
  Py.contains ".next_action" content = false ->
  fix_action_security.fix_do_function content m = None.
Proof.
  intros H. unfold fix_action_security.fix_do_function.
  rewrite (search_requires ".next_action"); [reflexivity|reflexivity|].
  destruct (Py.contains ".next_action" (Py.slice content _ _)) eqn:E; [|reflexivity].
  apply contains_slice in E. rewrite E in H. discriminate.
Qed.

Lemma fix_functions_idle (content : string) :
  Py.contains ".next_action" content = false ->
  forall (matches : list re.Match) (modified : bool),
    fix_action_security.fix_functions matches content modified = (content, modified).
Proof.
  intros H. induction matches as [|m rest IH]; intros modified; [reflexivity|].
  cbn -[fix_action_security.fix_do_function Py.contains].
  rewrite (fix_do_function_needs_the_method_call content m H).
  destruct (Py.contains "next_action" (Py.slice _ _ _)); apply IH.
Qed.

(** [process_file] of fix_action_security.py takes a file for vulnerable
    when it holds [executable.next_action] or [executable::next_action],
    but the pattern of [fix_do_function] asks for a dot before
    [next_action]: a file that calls [next_action] through the module only
    is reported as needing no change and is left as it is. *)
Theorem module_call_is_never_fixed (file : string) :
  Py.contains ".next_action" file = false ->
  fix_action_security.process_file file = (false, file).
Proof.
  intros H. unfold fix_action_security.process_file.
  destruct (negb _ && negb _); [reflexivity|].
  rewrite (fix_functions_idle file H). reflexivity.
Qed.

Lemma module_call_witness :
  Py.contains "executable::next_action"
    "public fun do_a<T>(e: &mut E) { let action: &A = executable::next_action(e, w); }"
    = true
  /\ fix_action_security.process_file
       "public fun do_a<T>(e: &mut E) { let action: &A = executable::next_action(e, w); }"
     = (false,
        "public fun do_a<T>(e: &mut E) { let action: &A = executable::next_action(e, w); }").
Proof.
  split; [reflexivity|].
  apply (module_call_is_never_fixed
           "public fun do_a<T>(e: &mut E) { let action: &A = executable::next_action(e, w); }").
  reflexivity.
Defined.

(** ** Patterns of two groups *)

Lemma two_groups_match_at (r1 r2 : re.regex) (t : string) (j : nat) (m : re.Match) :
  group_free r1 = true -> group_free r2 = true ->
  re.match_at (re.Cat (re.Group 1 r1) (re.Group 2 r2)) t j = Some m ->
  exists u1 u2 b : string,
    t = (u1 ++ u2 ++ b)%string /\ re_matches r1 u1 /\ re_matches r2 u2
    /\ m = re.mkMatch j (j + String.length u1 + String.length u2)
             [(2%nat, ((j + String.length u1)%nat,
                       (j + String.length u1 + String.length u2)%nat));
              (1%nat, (j, (j + String.length u1)%nat))].
Proof.
  intros G1 G2 H. unfold re.match_at in H. cbn [re.rmatch] in H.
  apply rmatch_sound in H. destruct H as (u1 & s1 & caps1 & -> & M1 & H & C1).
  apply rmatch_sound in H. destruct H as (u2 & s2 & caps2 & -> & M2 & H & C2).
  rewrite (C2 G2), (C1 G1) in H. inversion H; subst m.
  exists u1, u2, s2. repeat split; assumption.
Qed.

(** The groups of a match found in [pre ++ s] from the end of [pre] on. *)
Lemma two_groups_search (r1 r2 : re.regex) (pre s : string) (m : re.Match) :
  group_free r1 = true -> group_free r2 = true ->
  re.search_from (re.Cat (re.Group 1 r1) (re.Group 2 r2)) s (String.length pre) = Some m ->
  exists u1 u2 : string,
    re_matches r1 u1 /\ re_matches r2 u2
    /\ re.group (pre ++ s) m 1 = u1
    /\ re.group (pre ++ s) m 2 = u2
    /\ re.group0 (pre ++ s) m = (u1 ++ u2)%string.
Proof.
  intros G1 G2 H. apply search_from_sound in H. destruct H as (a & t & -> & H).
  apply two_groups_match_at in H; [|assumption|assumption].
  destruct H as (u1 & u2 & b & -> & M1 & M2 & ->).
  exists u1, u2. split; [exact M1|]. split; [exact M2|].
  rewrite <- string_length_app.
  unfold re.group, re.group0. cbn [re.lookup re.mgroups re.mstart re.mend Nat.eqb].
  rewrite <- (string_app_assoc pre a).
  split; [apply slice_app_exact|]. split.
  - rewrite <- (string_app_assoc (pre ++ a) u1), <- string_length_app.
    apply slice_app_exact.
  - rewrite <- Nat.add_assoc, <- string_length_app, <- (string_app_assoc u1 u2 b).
    apply slice_app_exact.
Qed.

(** ** fix_all_issues.py: the functions that end in an expression *)

(** [check_and_add_increment] means to leave alone a function that
    returns a value, which it looks for with [\n\s+\w+\s*\n\}] in group 1
    of its match.  Group 1 of [pattern2] ends before the closing brace and
    holds none, so the search never succeeds: the advance is added after
    the last expression of such a function as well. *)
Theorem last_expression_check_never_fires (pre s : string) (m : re.Match) :
  re.search_from fix_all_issues.pattern2 s (String.length pre) = Some m ->
  re.search fix_all_issues.last_expression_pattern (re.group (pre ++ s) m 1) = None
  /\ (Py.contains "executable::increment_action_idx" (re.group (pre ++ s) m 1)
      || Py.contains "): Resource" (re.group (pre ++ s) m 1) = false ->
      fix_all_issues.check_and_add_increment (pre ++ s) m
      = (re.group (pre ++ s) m 1 ++ fix_all_issues.increment_text
         ++ re.group (pre ++ s) m 2)%string).
Proof.
  intros H. unfold fix_all_issues.pattern2 in H.
  apply two_groups_search in H; [|reflexivity|reflexivity].
  destruct H as (u1 & u2 & M1 & _ & E1 & _ & _).
  assert (Hnone : re.search fix_all_issues.last_expression_pattern u1 = None).
  { apply (search_requires (nl ++ "}")); [reflexivity|].
    destruct (Py.contains (nl ++ "}") u1) eqn:E; [|reflexivity].
    apply (contains_has_char "}") in E; [|reflexivity].
    rewrite (avoids_sound "}" _ u1 M1) in E; [discriminate|reflexivity]. }
  split.
  - rewrite E1. exact Hnone.
  - intros Hc. unfold fix_all_issues.check_and_add_increment.
    rewrite Hc, E1, Hnone. reflexivity.
Qed.

Lemma last_expression_check_witness :
  re.search_from fix_all_issues.pattern2
    ("public fun do_x(executable: &mut Executable): u64 {" ++ nl ++ "    total" ++ nl ++ "}")
    0 = Some (re.mkMatch 0 63 [(2%nat, (61%nat, 63%nat)); (1%nat, (0%nat, 61%nat))])
  /\ fix_all_issues.check_and_add_increment
       ("public fun do_x(executable: &mut Executable): u64 {" ++ nl ++ "    total" ++ nl ++ "}")
       (re.mkMatch 0 63 [(2%nat, (61%nat, 63%nat)); (1%nat, (0%nat, 61%nat))])
     = ("public fun do_x(executable: &mut Executable): u64 {" ++ nl ++ "    total"
        ++ fix_all_issues.increment_text ++ nl ++ "}")%string.
Proof.
  split; [vm_compute; reflexivity|].
  destruct (last_expression_check_never_fires EmptyString
              ("public fun do_x(executable: &mut Executable): u64 {" ++ nl ++ "    total" ++ nl ++ "}")
              (re.mkMatch 0 63 [(2%nat, (61%nat, 63%nat)); (1%nat, (0%nat, 61%nat))])) as [_ H].
  - vm_compute. reflexivity.
  - refine (eq_trans (H _) _); vm_compute; reflexivity.
Defined.

(** The pattern with which [fix_p2_revert_new_functions] looks for the
    serialisation lines, [... let [^}]+ = action; ...], matches no text that
    holds a closing brace: a line that takes the struct apart field by
    field, [let T { .. } = action;], is never removed, and the function
    keeps returning [bytes]. *)
Theorem serialization_lines_with_a_brace_stay (pre s : string) (m : re.Match) :
  re.search_from fix_all_issues.serialization_pattern s (String.length pre) = Some m ->
  has_char "}" (re.group0 (pre ++ s) m) = false.
Proof.
  intros H. apply search_from_matches in H.
  destruct H as (a & u & b & _ & M & _ & _ & ->).
  apply (avoids_sound "}" _ u M). reflexivity.
Qed.

Lemma serialization_lines_witness :
  has_char "}"
    (re.group0
       ("    let bytes = bcs::to_bytes(&action);" ++ nl
        ++ "    // Destroy the action struct after serialization" ++ nl
        ++ "    let _ = action;" ++ nl ++ "    bytes")
       (re.mkMatch 0 122 [])) = false.
Proof.
  apply (serialization_lines_with_a_brace_stay EmptyString). vm_compute. reflexivity.
Defined.

(** ** Searching for a literal text *)

Lemma strip_prefix_prefix (l : string) :
  forall s : string,
    String.prefix l s = match re.strip_prefix l s with Some _ => true | None => false end.
Proof.
  induction l as [|c l IH]; intros s; [destruct s; reflexivity|].
  destruct s as [|d s]; [reflexivity|]. simpl.
  destruct (ascii_dec c d) as [->|Hn].
  - rewrite Ascii.eqb_refl. apply IH.
  - destruct (Ascii.eqb_spec c d); [contradiction|reflexivity].
Qed.

Lemma strip_prefix_length (l : string) :
  forall s s' : string,
    re.strip_prefix l s = Some s' -> s' = Py.drop (String.length l) s.
Proof.
  intros s s' H. apply strip_prefix_spec in H. subst s.
  symmetry. apply drop_app_exact.
Qed.

(** [re.search] of a literal finds what [str.find] finds. *)
Lemma search_from_lit (l : string) :
  forall (s : string) (i : nat),
    re.search_from (re.Lit l) s i
    = match Py.find_from l s i with
      | Some j => Some (re.mkMatch j (j + String.length l) [])
      | None => None
      end.
Proof.
  induction s as [|c s IH]; intros i.
  - cbn -[String.prefix re.strip_prefix]. unfold re.match_at. cbn -[String.prefix re.strip_prefix].
    rewrite strip_prefix_prefix. destruct (re.strip_prefix l ""); reflexivity.
  - cbn -[String.prefix re.strip_prefix]. unfold re.match_at. cbn -[String.prefix re.strip_prefix].
    rewrite strip_prefix_prefix. destruct (re.strip_prefix l (String c s)); [reflexivity|].
    apply IH.
Qed.

Lemma find_from_ge (x : string) :
  forall (s : string) (i j : nat), Py.find_from x s i = Some j -> (i <= j)%nat.
Proof.
  induction s as [|c s IH]; intros i j H; cbn -[String.prefix] in H.
  - destruct (String.prefix x ""); [inversion H; lia|discriminate].
  - destruct (String.prefix x (String c s)); [inversion H; lia|].
    apply IH in H. lia.
Qed.

(** Where a text is found: after a part [a] of the length the search
    reports, at the head of the rest. *)
Lemma find_from_split (x : string) :
  forall (s : string) (i j : nat),
    Py.find_from x s i = Some j ->
    exists a b : string,
      s = (a ++ b)%string /\ String.length a = (j - i)%nat
      /\ String.prefix x b = true.
Proof.
  induction s as [|c s IH]; intros i j H; cbn -[String.prefix] in H.
  - destruct (String.prefix x "") eqn:E; [|discriminate]. inversion H; subst.
    exists EmptyString, EmptyString. simpl. repeat split; [lia|exact E].
  - destruct (String.prefix x (String c s)) eqn:E.
    + inversion H; subst. exists EmptyString, (String c s).
      simpl. repeat split; [lia|exact E].
    + pose proof (find_from_ge x s (S i) j H) as Hge.
      apply IH in H. destruct H as (a & b & -> & Hl & Hp).
      exists (String c a), b. simpl. repeat split; [lia|exact Hp].
Qed.

Lemma prefix_split (x : string) :
  forall b : string, String.prefix x b = true -> exists b', b = (x ++ b')%string.
Proof.
  induction x as [|c x IH]; intros b H; [exists b; reflexivity|].
  destruct b as [|d b]; [discriminate|]. simpl in H.
  destruct (ascii_dec c d) as [->|]; [|discriminate].
  destruct (IH b H) as (b' & ->). exists b'. reflexivity.
Qed.

(** [re.sub] of a literal with [count=1]: the text as it was when the
    literal is not there, the first occurrence replaced otherwise. *)
Lemma sub_lit_once (l repl s : string) :
  l <> EmptyString ->
  (Py.contains l s = false /\ re.sub (re.Lit l) (fun _ => repl) s (Some 1%nat) = s)
  \/ (exists a b : string,
        s = (a ++ l ++ b)%string
        /\ re.sub (re.Lit l) (fun _ => repl) s (Some 1%nat) = (a ++ repl ++ b)%string).
Proof.
  intros Hl. unfold re.sub, Py.contains. cbn [re.sub_from].
  rewrite search_from_lit.
  destruct (Py.find_from l s 0) as [j|] eqn:E; [right|left; split; reflexivity].
  apply find_from_split in E. destruct E as (a & b & -> & Ha & Hp).
  apply prefix_split in Hp. destruct Hp as (b' & ->).
  exists a, b'. split; [reflexivity|].
  rewrite Nat.sub_0_r in Ha. subst j.
  cbn [re.mstart re.mend option_map Nat.pred].
  assert (Hmax : Nat.max (String.length a + String.length l) (S (String.length a))
                 = (String.length a + String.length l)%nat).
  { destruct l; [contradiction|]. simpl. lia. }
  rewrite Hmax, Nat.sub_0_r.
  unfold Py.slice. rewrite Nat.sub_0_r. cbn [Py.drop].
  rewrite take_app_exact.
  rewrite <- string_length_app, <- (string_app_assoc a l b'), drop_app_exact.
  destruct (String.length ((a ++ l) ++ b')); reflexivity.
Qed.

Lemma count_char_app (c : ascii) (u v : string) :
  count_char c (u ++ v) = (count_char c u + count_char c v)%nat.
Proof. induction u as [|d u IH]; simpl; [reflexivity|]. rewrite IH. lia. Qed.

(** ** complete_migration.py: the import of [futarchy_core] *)

(** A second run of [fix_oracle_actions] leaves the text of the first. *)
Theorem fix_oracle_actions_idempotent (content : string) :
  complete_migration.fix_oracle_actions (complete_migration.fix_oracle_actions content)
  = complete_migration.fix_oracle_actions content.
Proof.
  assert (Hfix : forall c, Py.contains "action_validation" c = true ->
                           complete_migration.fix_oracle_actions c = c).
  { intros c Hc. unfold complete_migration.fix_oracle_actions. rewrite Hc. reflexivity. }
  destruct (Py.contains "action_validation" content) eqn:E.
  - rewrite (Hfix content E). apply Hfix. exact E.
  - assert (Hrun : complete_migration.fix_oracle_actions content
                   = re.sub (re.Lit "use futarchy_core::")
                       (fun _ => "use futarchy_core::{
    action_validation,
    action_types,") content (Some 1%nat)).
    { unfold complete_migration.fix_oracle_actions. rewrite E. reflexivity. }
    match type of Hrun with
    | _ = re.sub (re.Lit ?l) (fun _ => ?repl) content (Some 1%nat) =>
        destruct (sub_lit_once l repl content) as [[_ H]|(a & b & _ & H)];
          [discriminate| |]
    end.
    + rewrite H in Hrun. rewrite Hrun. exact Hrun.
    + rewrite H in Hrun. rewrite Hrun. apply Hfix. apply contains_app. reflexivity.
Qed.

(** [fix_oracle_actions] and [fix_stream_actions] put an import list that
    opens with a brace in place of [use futarchy_core::] and never close
    it: on a file that holds the import and no [action_validation] yet, the
    text written has one opening brace more than the text read and as many
    closing braces. *)
Theorem import_rewrite_opens_a_brace (content : string) :
  Py.contains "action_validation" content = false ->
  Py.contains "use futarchy_core::" content = true ->
  (count_char "{" (complete_migration.fix_oracle_actions content)
   = S (count_char "{" content)
   /\ count_char "}" (complete_migration.fix_oracle_actions content)
      = count_char "}" content)
  /\ (count_char "{" (complete_migration.fix_stream_actions content)
      = S (count_char "{" content)
      /\ count_char "}" (complete_migration.fix_stream_actions content)
         = count_char "}" content).
Proof.
  intros Hv Hc.
  assert (Hstep :
    exists c1 : string,
      re.sub (re.Lit "use futarchy_core::")
        (fun _ => "use futarchy_core::{
    action_validation,
    action_types,") content (Some 1%nat) = c1
      /\ count_char "{" c1 = S (count_char "{" content)
      /\ count_char "}" c1 = count_char "}" content).
  { eexists. split; [reflexivity|].
    match goal with
    | |- context [re.sub (re.Lit ?l) (fun _ => ?repl) content (Some 1%nat)] =>
        destruct (sub_lit_once l repl content) as [[H _]|(a & b & E & H)];
          [discriminate|rewrite H in Hc; discriminate|]
    end.
    rewrite H. subst content. rewrite !count_char_app. simpl. lia. }
  destruct Hstep as (c1 & E1 & Ho & Hcl).
  split.
  - unfold complete_migration.fix_oracle_actions. rewrite Hv. cbn [negb].
    rewrite E1. split; assumption.
  - unfold complete_migration.fix_stream_actions. rewrite Hv. cbn [negb].
    rewrite E1. destruct (negb (Py.contains "bcs_validation" c1)); [|split; assumption].
    match goal with
    | |- context [re.sub (re.Lit ?l) (fun _ => ?repl) c1 (Some 1%nat)] =>
        destruct (sub_lit_once l repl c1) as [[_ H]|(a & b & E & H)];
          [discriminate| |]
    end.
    + rewrite H. split; assumption.
    + rewrite H. rewrite <- Ho, <- Hcl. subst c1.
      rewrite E, !count_char_app. simpl. split; lia.
Qed.

Lemma import_rewrite_witness :
  count_char "{" (complete_migration.fix_oracle_actions "use futarchy_core::version;") = 1%nat
  /\ count_char "}" (complete_migration.fix_oracle_actions "use futarchy_core::version;") = 0%nat.
Proof.
  apply (import_rewrite_opens_a_brace "use futarchy_core::version;"); reflexivity.
Defined.

(** ** The blocks that add what the secure text needs *)

Lemma ensure_error_constants_cases (content : string) :
  fix_all_actions.ensure_error_constants content = content
  \/ Py.contains "const EWrongAction" (fix_all_actions.ensure_error_constants content) = true.
Proof.
  unfold fix_all_actions.ensure_error_constants.
  destruct (negb (Py.contains "const EWrongAction" content)); [|left; reflexivity].
  destruct (0 <=? Py.find content "// === Errors ===" 0)%Z.
  - cbv zeta.
    match goal with
    | |- context [(0 <? ?z)%Z] => destruct (0 <? z)%Z; [right|left; reflexivity]
    end.
    apply contains_app_r, contains_app_r, contains_app_l. reflexivity.
  - cbv zeta. destruct (0 <=? Py.find content "module " 0)%Z; [right|left; reflexivity].
    do 5 apply contains_app_r. apply contains_app_l. reflexivity.
Qed.

(** [ensure_error_constants] of fix_all_actions.py, run on its own result,
    changes nothing: whenever it changes a text, the text it returns holds
    [const EWrongAction], which is what it looks for before it adds
    anything. *)
Theorem ensure_error_constants_idempotent (content : string) :
  fix_all_actions.ensure_error_constants (fix_all_actions.ensure_error_constants content)
  = fix_all_actions.ensure_error_constants content.
Proof.
  destruct (ensure_error_constants_cases content) as [H|H].
  - rewrite H. exact H.
  - unfold fix_all_actions.ensure_error_constants at 1. rewrite H. reflexivity.
Qed.

Lemma ensure_error_constant_cases (content : string) :
  fix_action_security.ensure_error_constant content = content
  \/ Py.contains "const EWrongAction"
       (fix_action_security.ensure_error_constant content) = true.
Proof.
  unfold fix_action_security.ensure_error_constant.
  destruct (negb (Py.contains "const EWrongAction" content)); [|left; reflexivity].
  cbv zeta.
  destruct (0 <=? Py.find content "// === Errors ===" 0)%Z; [|left; reflexivity].
  match goal with
  | |- context [(0 <? ?z)%Z] => destruct (0 <? z)%Z; [right|left; reflexivity]
  end.
  apply contains_app_r, contains_app_l. reflexivity.
Qed.

Lemma ensure_alias_cases (content : string) :
  fix_action_security.ensure_alias content = content
  \/ Py.contains "protocol_intents" (fix_action_security.ensure_alias content) = true.
Proof.
  unfold fix_action_security.ensure_alias.
  destruct (negb (Py.contains "protocol_intents" content)); [|left; reflexivity].
  cbv zeta.
  destruct (0 <=? Py.rfind content "use ")%Z; [|left; reflexivity].
  match goal with
  | |- context [(0 <? ?z)%Z] => destruct (0 <? z)%Z; [right|left; reflexivity]
  end.
  do 4 apply contains_app_r. apply contains_app_l. reflexivity.
Qed.

(** The block of [process_file] of fix_action_security.py that adds the
    two error constants and the block that adds the alias of
    [protocol_intents], each run on its own result, change nothing. *)
Theorem error_constant_and_alias_blocks_idempotent (content : string) :
  fix_action_security.ensure_error_constant
    (fix_action_security.ensure_error_constant content)
  = fix_action_security.ensure_error_constant content
  /\ fix_action_security.ensure_alias (fix_action_security.ensure_alias content)
     = fix_action_security.ensure_alias content.
Proof.
  split.
  - destruct (ensure_error_constant_cases content) as [H|H].
    + rewrite H. exact H.
    + unfold fix_action_security.ensure_error_constant at 1. rewrite H. reflexivity.
  - destruct (ensure_alias_cases content) as [H|H].
    + rewrite H. exact H.
    + unfold fix_action_security.ensure_alias at 1. rewrite H. reflexivity.
Qed.

(** ** fix_all_issues.py: the structs added before the errors *)

Lemma prefix_app_split :
  forall a x y : string,
    String.prefix x (a ++ y) = true ->
    String.prefix x a = true
    \/ exists (d : ascii) (x2 : string),
         x = (a ++ String d x2)%string /\ String.prefix (String d x2) y = true.
Proof.
  induction a as [|e a IH]; intros x y H.
  - destruct x as [|d x]; [left; reflexivity|].
    right. exists d, x. split; [reflexivity|exact H].
  - destruct x as [|d x]; [left; reflexivity|].
    simpl in H. simpl. destruct (ascii_dec d e) as [->|]; [|discriminate].
    destruct (IH x y H) as [Hl|(d2 & x2 & -> & Hp)]; [left; exact Hl|].
    right. exists d2, x2. split; [reflexivity|exact Hp].
Qed.

Lemma prefix_head (d c : ascii) (x rest : string) :
  String.prefix (String d x) (String c rest) = true -> d = c.
Proof. simpl. destruct (ascii_dec d c); [trivial|discriminate]. Qed.

Lemma has_char_head (c : ascii) (a x : string) : has_char c (a ++ String c x) = true.
Proof.
  rewrite has_char_app. simpl. rewrite Ascii.eqb_refl. apply orb_true_r.
Qed.

(** A text [x] without the character [c] does not start in front of a [c]
    and end behind it. *)
Lemma prefix_across (c : ascii) (x a rest : string) :
  has_char c x = false ->
  String.prefix x a = false ->
  String.prefix x (a ++ String c rest) = false.
Proof.
  intros Hc Ha. destruct (String.prefix x (a ++ String c rest)) eqn:E; [|reflexivity].
  apply prefix_app_split in E. destruct E as [E|(d & x2 & -> & E)].
  - rewrite E in Ha. discriminate.
  - apply prefix_head in E. subst d. rewrite has_char_head in Hc. discriminate.
Qed.

Lemma contains_tail (x : string) (e : ascii) (s : string) :
  Py.contains x (String e s) = false ->
  String.prefix x (String e s) = false /\ Py.contains x s = false.
Proof.
  unfold Py.contains. cbn -[String.prefix].
  destruct (String.prefix x (String e s)); [discriminate|]. intros H.
  split; [reflexivity|].
  destruct (Py.find_from x s 0) eqn:E; [|reflexivity].
  assert (Hn : Py.find_from x s 0 <> None) by (rewrite E; discriminate).
  apply (find_from_shift x s 0%nat 1%nat) in Hn.
  destruct (Py.find_from x s 1); [discriminate|contradiction].
Qed.

Lemma find_from_skip (x : string) (c : ascii) :
  has_char c x = false -> x <> EmptyString ->
  forall (mid rest : string) (i : nat),
    Py.contains x mid = false ->
    Py.find_from x (mid ++ String c rest) i
    = Py.find_from x rest (i + String.length mid + 1).
Proof.
  intros Hc Hx. induction mid as [|e mid IH]; intros rest i Hm.
  - assert (Hp : String.prefix x (String c rest) = false).
    { apply (prefix_across c x EmptyString rest Hc).
      destruct x; [contradiction|reflexivity]. }
    cbn -[String.prefix]. rewrite Hp. f_equal. lia.
  - apply contains_tail in Hm. destruct Hm as [Hp Hm].
    change ((String e mid ++ String c rest)%string)
      with (String e (mid ++ String c rest)).
    cbn -[String.prefix].
    pose proof (prefix_across c x (String e mid) rest Hc Hp) as Hp'.
    change ((String e mid ++ String c rest)%string)
      with (String e (mid ++ String c rest)) in Hp'.
    rewrite Hp', (IH rest (S i) Hm). f_equal. simpl. lia.
Qed.

(** The first occurrence of [x] after [c], [mid] and [c] are put in front
    of it. *)
Lemma find_from_insert (x : string) (c : ascii) (mid : string) :
  has_char c x = false -> x <> EmptyString -> Py.contains x mid = false ->
  forall (s : string) (i j : nat),
    Py.find_from x s i = Some j ->
    exists a b : string,
      s = (a ++ b)%string /\ String.length a = (j - i)%nat
      /\ Py.find_from x (a ++ String c (mid ++ String c b)) i
         = Some (j + String.length mid + 2)%nat.
Proof.
  intros Hc Hx Hm.
  assert (Hhere : forall (s : string) (i : nat),
             String.prefix x s = true ->
             Py.find_from x (String c (mid ++ String c s)) i
             = Some (i + String.length mid + 2)%nat).
  { intros s i Hp.
    assert (He : Py.contains x EmptyString = false).
    { destruct x; [contradiction|reflexivity]. }
    pose proof (find_from_skip x c Hc Hx EmptyString (mid ++ String c s) i He) as H1.
    cbn [append] in H1. rewrite H1.
    rewrite (find_from_skip x c Hc Hx mid s _ Hm).
    destruct s as [|e s]; cbn -[String.prefix]; rewrite Hp; f_equal; simpl; lia. }
  induction s as [|e s IH]; intros i j H; cbn -[String.prefix] in H.
  - destruct (String.prefix x "") eqn:E; [|discriminate]. inversion H; subst j.
    exists EmptyString, EmptyString. rewrite Nat.sub_diag.
    repeat split. apply Hhere. exact E.
  - destruct (String.prefix x (String e s)) eqn:E.
    + inversion H; subst j. exists EmptyString, (String e s). rewrite Nat.sub_diag.
      repeat split. apply Hhere. exact E.
    + pose proof (find_from_ge x s (S i) j H) as Hge.
      destruct (IH (S i) j H) as (a & b & -> & Hl & Hf).
      exists (String e a), b. split; [reflexivity|]. split; [simpl; lia|].
      change ((String e a ++ String c (mid ++ String c b))%string)
        with (String e (a ++ String c (mid ++ String c b))).
      cbn -[String.prefix].
      assert (Ha : String.prefix x (String e a) = false).
      { destruct (String.prefix x (String e a)) eqn:Ea; [|reflexivity].
        apply (prefix_app_l x (String e a) b) in Ea.
        change ((String e a ++ b)%string) with (String e (a ++ b)) in Ea.
        rewrite Ea in E. discriminate. }
      pose proof (prefix_across c x (String e a) (mid ++ String c b) Hc Ha) as Hp'.
      change ((String e a ++ String c (mid ++ String c b))%string)
        with (String e (a ++ String c (mid ++ String c b))) in Hp'.
      rewrite Hp'. exact Hf.
Qed.

Lemma position_of_nat (s : string) (j : nat) : Py.position s (Z.of_nat j) = j.
Proof.
  unfold Py.position. destruct (Z.ltb_spec (Z.of_nat j) 0); [lia|apply Nat2Z.id].
Qed.

(** The text that [fix_p1_create_missing_stream_actions] puts in front of
    the heading of the errors. *)
Lemma missing_structs_shape :
  exists mid : string,
    (forall b : string,
        (fix_all_issues.missing_structs ++ nl ++ b)%string
        = String (ascii_of_nat 10) (mid ++ String (ascii_of_nat 10) b))
    /\ Py.contains "// === Errors ===" mid = false
    /\ S (S (String.length mid)) = String.length (fix_all_issues.missing_structs ++ nl).
Proof.
  exists (Py.drop 1 fix_all_issues.missing_structs).
  split; [intros b; reflexivity|]. split; vm_compute; reflexivity.
Qed.

Lemma insert_structs (content : string) (j : nat) :
  Py.find_from "// === Errors ===" content 0 = Some j ->
  fix_all_issues.fix_p1_create_missing_stream_actions content
  = if (0 <? j)%nat
    then (Py.take j content ++ fix_all_issues.missing_structs ++ nl
          ++ Py.drop j content)%string
    else content.
Proof.
  intros H. unfold fix_all_issues.fix_p1_create_missing_stream_actions, Py.find.
  cbn [Py.len Nat.ltb Nat.leb Py.drop]. rewrite H.
  unfold Py.zslice_to, Py.zslice_from. rewrite position_of_nat.
  destruct j; reflexivity.
Qed.

(** [fix_p1_create_missing_stream_actions] looks for nothing but the
    heading [// === Errors ===]: wherever it has added the six structs, a
    second run finds the heading again, further down, and adds the six
    structs a second time. *)
Theorem second_run_adds_the_structs_again (content : string) :
  (0 < Py.find content "// === Errors ===" 0)%Z ->
  exists a b : string,
    content = (a ++ b)%string
    /\ fix_all_issues.fix_p1_create_missing_stream_actions content
       = (a ++ fix_all_issues.missing_structs ++ nl ++ b)%string
    /\ fix_all_issues.fix_p1_create_missing_stream_actions
         (fix_all_issues.fix_p1_create_missing_stream_actions content)
       = (a ++ (fix_all_issues.missing_structs ++ nl)
            ++ fix_all_issues.missing_structs ++ nl ++ b)%string.
Proof.
  intros Hpos. unfold Py.find in Hpos. cbn [Py.len Nat.ltb Nat.leb Py.drop] in Hpos.
  destruct (Py.find_from "// === Errors ===" content 0) as [j|] eqn:E; [|discriminate].
  assert (Hj : (0 <? j)%nat = true) by (apply Nat.ltb_lt; lia).
  destruct missing_structs_shape as (mid & Hshape & Hmid & Hlen).
  destruct (find_from_insert "// === Errors ===" (ascii_of_nat 10) mid
              eq_refl ltac:(discriminate) Hmid content 0%nat j E)
    as (a & b & -> & Hl & Hf).
  rewrite Nat.sub_0_r in Hl. subst j.
  exists a, b. split; [reflexivity|].
  assert (Hfirst : fix_all_issues.fix_p1_create_missing_stream_actions (a ++ b)
                   = (a ++ fix_all_issues.missing_structs ++ nl ++ b)%string).
  { rewrite (insert_structs _ _ E), Hj, take_app_exact, drop_app_exact. reflexivity. }
  split; [exact Hfirst|].
  rewrite Hfirst. rewrite <- Hshape in Hf.
  rewrite (insert_structs _ _ Hf).
  replace (String.length a + String.length mid + 2)%nat
    with (String.length (a ++ fix_all_issues.missing_structs ++ nl))
    by (rewrite string_length_app, <- Hlen; lia).
  replace ((a ++ fix_all_issues.missing_structs ++ nl ++ b)%string)
    with (((a ++ fix_all_issues.missing_structs ++ nl) ++ b)%string)
    by (rewrite !string_app_assoc; reflexivity).
  rewrite take_app_exact, drop_app_exact.
  destruct (String.length (a ++ fix_all_issues.missing_structs ++ nl)) eqn:El.
  - rewrite string_length_app, <- Hlen in El. lia.
  - cbn [Nat.ltb Nat.leb]. rewrite !string_app_assoc. reflexivity.
Qed.

Lemma second_run_witness :
  exists a b : string,
    ("module m;" ++ nl ++ "// === Errors ===")%string = (a ++ b)%string
    /\ fix_all_issues.fix_p1_create_missing_stream_actions
         (fix_all_issues.fix_p1_create_missing_stream_actions
            ("module m;" ++ nl ++ "// === Errors ==="))
       = (a ++ (fix_all_issues.missing_structs ++ nl)
            ++ fix_all_issues.missing_structs ++ nl ++ b)%string.
Proof.
  destruct (second_run_adds_the_structs_again ("module m;" ++ nl ++ "// === Errors ==="))
    as (a & b & E & _ & H); [reflexivity|].
  exists a, b. split; [exact E|exact H].
Defined.

(** ** The calls of [type_name::get] *)





Lemma sub_none (r : re.regex) (repl : re.Match -> string) (s : string) :
  re.search r s = None -> re.sub r repl s None = s.
Proof. unfold re.search, re.sub. cbn [re.sub_from]. intros ->. reflexivity. Qed.

Lemma replace_absent (old new : string) :
  forall s : string, Py.contains old s = false -> Py.replace s old new = s.
Proof.
  unfold Py.replace. induction s as [|c s IH]; intros H; [reflexivity|].
  apply contains_tail in H. destruct H as [Hp Hc].
  cbn -[String.prefix]. rewrite Hp, (IH Hc). reflexivity.
Qed.

Lemma prefix_app_inv (x y : string) :
  forall s : string, String.prefix (x ++ y) s = true -> String.prefix x s = true.
Proof.
  induction x as [|c x IH]; intros s H; [destruct s; reflexivity|].
  destruct s as [|d s]; [discriminate|]. simpl in *.
  destruct (ascii_dec c d); [apply IH; exact H|discriminate].
Qed.

(** A text without [x] is without every text that begins with [x]. *)
Lemma contains_longer (x y : string) :
  forall s : string, Py.contains x s = false -> Py.contains (x ++ y) s = false.
Proof.
  unfold Py.contains. intros s. generalize 0%nat.
  induction s as [|c s IH]; intros i H; cbn -[String.prefix] in *.
  - destruct (String.prefix (x ++ y) "") eqn:E; [|reflexivity].
    apply prefix_app_inv in E. rewrite E in H. discriminate.
  - destruct (String.prefix (x ++ y) (String c s)) eqn:E.
    + apply prefix_app_inv in E. rewrite E in H. discriminate.
    + destruct (String.prefix x (String c s)); [discriminate|].
      apply (IH (S i)). exact H.
Qed.

(** A decoder that never names [type_name::get] is written back as it was
    read, by [fix_all_type_name_get_calls] and by [fix_liquidity_decoder]. *)
Theorem decoder_without_the_call_is_unchanged (content : string) :
  Py.contains "type_name::get" content = false ->
  fix_decoder_issues.fix_all_type_name_get_calls content = content
  /\ complete_migration.fix_liquidity_decoder content = content.
Proof.
  intros H.
  assert (Hs : re.search fix_decoder_issues.type_name_get_pattern content = None).
  { apply (search_requires "type_name::get"); [reflexivity|exact H]. }
  assert (Ha : Py.replace content "type_name::get_address" "type_name::address_string"
               = content).
  { apply replace_absent. apply (contains_longer "type_name::get" "_address"). exact H. }
  assert (Hm : Py.replace content "type_name::get_module" "type_name::module_string"
               = content).
  { apply replace_absent. apply (contains_longer "type_name::get" "_module"). exact H. }
  split.
  - unfold fix_decoder_issues.fix_all_type_name_get_calls.
    rewrite (sub_none _ _ _ Hs), Ha, Hm. reflexivity.
  - unfold complete_migration.fix_liquidity_decoder.
    change complete_migration.type_name_get_pattern
      with fix_decoder_issues.type_name_get_pattern.
    rewrite (sub_none _ _ _ Hs), Ha, Hm. reflexivity.
Qed.

Lemma decoder_without_the_call_witness :
  fix_decoder_issues.fix_all_type_name_get_calls "module decoder;" = "module decoder;".
Proof.
  destruct (decoder_without_the_call_is_unchanged "module decoder;") as [H _];
    [reflexivity|exact H].
Defined.

(** ** Where the functions end *)

Lemma matches_cat_inv (r1 r2 : re.regex) (u : string) :
  re_matches (re.Cat r1 r2) u ->
  exists u1 u2 : string, u = (u1 ++ u2)%string /\ re_matches r1 u1 /\ re_matches r2 u2.
Proof. intros H. inversion H; subst. eauto. Qed.

Lemma matches_lit_inv (l u : string) : re_matches (re.Lit l) u -> u = l.
Proof. intros H. inversion H; subst. reflexivity. Qed.

Lemma matches_group_inv (n : nat) (r : re.regex) (u : string) :
  re_matches (re.Group n r) u -> re_matches r u.
Proof. intros H. inversion H; subst. assumption. Qed.

(** A match of a sequence of patterns ends with a match of its last
    patterns. *)
Lemma seq_tail (tail : list re.regex) :
  tail <> [] ->
  forall (rs : list re.regex) (u : string),
    re_matches (re.seq (rs ++ tail)) u ->
    exists h t : string, u = (h ++ t)%string /\ re_matches (re.seq tail) t.
Proof.
  intros Ht. induction rs as [|r rs IH]; intros u H.
  - exists EmptyString, u. split; [reflexivity|exact H].
  - assert (Hcat : re.seq ((r :: rs) ++ tail) = re.Cat r (re.seq (rs ++ tail))).
    { simpl. destruct (rs ++ tail)%list eqn:E; [|reflexivity].
      apply app_eq_nil in E. destruct E as [_ E]. contradiction. }
    rewrite Hcat in H. apply matches_cat_inv in H.
    destruct H as (u1 & u2 & -> & _ & H).
    destruct (IH u2 H) as (h & t & -> & M).
    exists (u1 ++ h)%string, t. split; [symmetry; apply string_app_assoc|exact M].
Qed.

Lemma rfind_from_last (c : ascii) :
  forall (t : string) (i : nat) (last : option nat),
    Py.rfind_from (String c EmptyString) (t ++ String c EmptyString) i last
    = Some (i + String.length t)%nat.
Proof.
  induction t as [|d t IH]; intros i last.
  - simpl. destruct (ascii_dec c c); [|contradiction]. f_equal. lia.
  - change ((String d t ++ String c "")%string) with (String d (t ++ String c "")).
    cbn -[String.prefix]. rewrite IH. f_equal. simpl. lia.
Qed.

(** [add_increment] of fix_all_actions.py takes for the function what
    [do_func_pattern] matches, and the pattern ends a function at the first
    closing brace after its opening brace: the advance is put in front of
    that brace, whether it closes the function or a block inside it. *)
Theorem increment_goes_before_the_first_closing_brace (pre s : string) (m : re.Match) :
  re.search_from fix_all_actions.do_func_pattern s (String.length pre) = Some m ->
  exists head body : string,
    re.group0 (pre ++ s) m = (head ++ "{" ++ body ++ "}")%string
    /\ has_char "}" body = false
    /\ (Py.contains "executable::increment_action_idx" (re.group0 (pre ++ s) m) = false ->
        fix_all_actions.add_increment (pre ++ s) m
        = (head ++ "{" ++ body ++ nl ++ nl ++ "    // Increment action index" ++ nl
           ++ "    executable::increment_action_idx(executable);" ++ nl ++ "}")%string).
Proof.
  intros H. apply search_from_matches in H.
  destruct H as (a & u & b & _ & M & _ & _ & E0).
  unfold fix_all_actions.do_func_pattern in M. apply matches_group_inv in M.
  change (re_matches
            (re.seq ([re.Lit "public fun do_"; re.plus re.word; re.Lit "<";
                      re.plus (re.other_than ">"); re.Lit ">"; re.star re.space;
                      re.Lit "("; re.plus (re.other_than ")"); re.Lit ")";
                      re.star (re.other_than "{")]
                     ++ [re.Lit "{"; re.plus (re.other_than "}"); re.Lit "}"])) u) in M.
  apply seq_tail in M; [|discriminate].
  destruct M as (head & t & -> & M). cbn [re.seq] in M.
  apply matches_cat_inv in M. destruct M as (o & t' & -> & Mo & M).
  apply matches_cat_inv in M. destruct M as (body & c & -> & Mb & Mc).
  apply matches_lit_inv in Mo. apply matches_lit_inv in Mc. subst o c.
  exists head, body. split; [exact E0|]. split.
  - apply (avoids_sound "}" _ body Mb). reflexivity.
  - intros Hc. unfold fix_all_actions.add_increment. rewrite Hc, E0.
    assert (Hr : Py.rfind (head ++ "{" ++ body ++ "}") "}"
                 = Z.of_nat (String.length (head ++ "{" ++ body))).
    { unfold Py.rfind.
      replace ((head ++ "{" ++ body ++ "}")%string)
        with (((head ++ "{" ++ body) ++ "}")%string)
        by (rewrite !string_app_assoc; reflexivity).
      rewrite rfind_from_last. reflexivity. }
    rewrite Hr. unfold Py.zslice_to, Py.zslice_from. rewrite position_of_nat.
    replace ((head ++ "{" ++ body ++ "}")%string)
      with (((head ++ "{" ++ body) ++ "}")%string)
      by (rewrite !string_app_assoc; reflexivity).
    rewrite take_app_exact, drop_app_exact.
    destruct (Z.ltb_spec 0 (Z.of_nat (String.length (head ++ "{" ++ body)))) as [_|Hle].
    + rewrite !string_app_assoc. reflexivity.
    + rewrite string_length_app in Hle. simpl in Hle. lia.
Qed.

Lemma increment_witness :
  exists head body : string,
    re.group0 "public fun do_x<T>(e: &mut E) { if (a) { b(); }; c(); }"
      (re.mkMatch 0 47 [(1%nat, (0%nat, 47%nat))])
    = (head ++ "{" ++ body ++ "}")%string
    /\ has_char "}" body = false.
Proof.
  destruct (increment_goes_before_the_first_closing_brace EmptyString
              "public fun do_x<T>(e: &mut E) { if (a) { b(); }; c(); }"
              (re.mkMatch 0 47 [(1%nat, (0%nat, 47%nat))]))
    as (head & body & E & H & _); [vm_compute; reflexivity|].
  exists head, body. split; [exact E|exact H].
Defined.





